(** * gha-auth: pattern matcher, policy engine and JWKS key cache

    A shallow embedding of the trust-decision path of the [ghaauth] package:
    - [matcher.go]: [Match], [matchInternal], [MatchAny];
    - [policy.go]:  [Policy.Evaluate], [Policy.matchesRule], [Policy.Validate];
    - [claims.go]:  [GitHubActionsClaims.Validate];
    - [jwks.go]:    [JWKSFetcher.GetKey], [refresh], [jwkToPublicKey], [Keyfunc].

    Go strings are byte sequences, so a Go [string] is a Rocq [string]
    (a list of 8-bit [ascii]); the matcher works on the underlying byte list.
    A Go struct is a record in a module of its name, a pointer receiver that
    may be nil is an [option], an [error] result is an [option] or a sum. *)

From Stdlib Require Import ZArith Ascii String List Bool Lia.
From stdpp Require Import base option list strings gmap.

Local Open Scope Z_scope.

(** ** matcher.go *)

Module Matcher.

Definition bytes := list ascii.

Definition slash : ascii := "/"%char.
Definition star : ascii := "*"%char.

(** [strings.IndexByte(s, c)]: the index of the first [c] in [s], or [-1]. *)
Fixpoint IndexByte (s : bytes) (c : ascii) : Z :=
  match s with
  | [] => -1
  | x :: s' =>
      if Ascii.eqb x c then 0
      else let r := IndexByte s' c in
           if r <? 0 then -1 else r + 1
  end.

(** [pi+1 < len(pattern) && pattern[pi:pi+2] == "**"], on [pattern[pi:]]. *)
Definition hasDoubleStar (pattern : bytes) : bool :=
  match pattern with
  | a :: b :: _ => Ascii.eqb a star && Ascii.eqb b star
  | _ => false
  end.

(** [for i := lo; i <= hi; i++ { if f(value[i:]) { return true } }; return false]
    with [value] standing for [value[lo:]] and [n = hi - lo + 1] turns.
    The source never runs [i] past [len(value)]. *)
Fixpoint anyFrom (f : bytes -> bool) (n : nat) (value : bytes) : bool :=
  match n with
  | O => false
  | S n' =>
      if f value then true
      else match value with
           | [] => false
           | _ :: value' => anyFrom f n' value'
           end
  end.

(** [a == b] on strings. *)
Definition bytes_eqb (a b : bytes) : bool := bool_decide (a = b).

(** [matchInternal(pattern, value)].  The source walks two cursors [pi],
    [vi]; every access it makes is relative to them, so the loop state is
    the pair of suffixes [pattern[pi:]], [value[vi:]], which is what the
    arguments are here.  One turn of the [for] loop is one unfolding; the
    literal case ([pi++; vi++]) continues on the two tails, and the
    recursive calls of the source are already on suffixes. *)
Fixpoint matchInternal (pattern value : bytes) {struct pattern} : bool :=
  match pattern with
  | [] =>
      (* pi >= len(pattern): a match iff vi >= len(value) *)
      match value with [] => true | _ :: _ => false end
  | p0 :: pattern1 =>
      if hasDoubleStar pattern then
        (* pi += 2 *)
        match pattern1 with
        | [] => false
        | _ :: pattern2 =>
            match pattern2 with
            | [] => true                       (* the two stars end the pattern *)
            | q :: pattern3 =>
                (* skip optional separator after the two stars *)
                let rest := if Ascii.eqb q slash then pattern3 else pattern2 in
                (* for i := vi; i <= len(value); i++ *)
                anyFrom (matchInternal rest) (S (length value)) value
            end
        end
      else if Ascii.eqb p0 star then
        (* pi++ ; pattern1 = pattern[pi:] *)
        let nextSlash := IndexByte pattern1 slash in
        let suffix :=
          if 0 <=? nextSlash then take (Z.to_nat nextSlash) pattern1
          else pattern1 in
        let valueSlash := IndexByte value slash in
        let searchEnd :=
          if 0 <=? valueSlash then valueSlash else Z.of_nat (length value) in
        if bytes_eqb suffix [] then
          if 0 <=? valueSlash then
            matchInternal pattern1 (drop (Z.to_nat valueSlash) value)
          else
            matchInternal pattern1 []
        else
          (* for i := vi; i <= searchEnd; i++ *)
          anyFrom (matchInternal pattern1) (S (Z.to_nat searchEnd)) value
      else
        match value with
        | [] =>
            (* value exhausted but pattern remains *)
            bytes_eqb pattern [star] || bytes_eqb pattern [star; star]
            || bytes_eqb pattern []
        | v0 :: value1 =>
            if negb (Ascii.eqb p0 v0) then false
            else matchInternal pattern1 value1
        end
  end.

Definition Match (pattern value : string) : bool :=
  matchInternal (list_ascii_of_string pattern) (list_ascii_of_string value).

(** [MatchAny]: the [for _, pattern := range patterns] loop. *)
Fixpoint MatchAny (patterns : list string) (value : string) : bool :=
  match patterns with
  | [] => false
  | pattern :: patterns' =>
      if Match pattern value then true else MatchAny patterns' value
  end.

End Matcher.

(** ** errors.go *)

(** The sentinel errors; [errors.Is(err, ErrX)] on a [ValidationError] holds
    iff its [Err] field is [ErrX] ([Unwrap] returns [Err]). *)
Inductive Sentinel :=
| ErrInvalidToken
| ErrTokenExpired
| ErrInvalidSignature
| ErrInvalidAudience
| ErrInvalidIssuer
| ErrAccessDenied
| ErrJWKSFetch
| ErrKeyNotFound.

(** A value stored in a JWT header ([map[string]interface{}]): a string, or
    any other JSON value, kept by its [%v] rendering. *)
Inductive HeaderValue :=
| HString (s : string)
| HOther (rendering : string).

(** The [reason] argument of [NewValidationError].  Literal reasons and
    [err.Error()] texts are [RText]; the three [fmt.Sprintf] reasons of
    jwks.go keep their argument instead of the formatted text. *)
Inductive ReasonText :=
| RText (s : string)
| RKeyIDNotFound (kid : string)
    (* fmt.Sprintf("key ID %q not found in JWKS", kid) *)
| RHTTPStatus (code : Z)
    (* fmt.Sprintf("HTTP %d", resp.StatusCode) *)
| RUnexpectedMethod (alg : option HeaderValue).
    (* fmt.Sprintf("unexpected signing method: %v", token.Header["alg"]) *)

Module ValidationError.
Record t := mk { Err : Sentinel; Reason : ReasonText }.
End ValidationError.

Definition NewValidationError (err : Sentinel) (reason : ReasonText)
  : ValidationError.t :=
  ValidationError.mk err reason.

(** [errors.Is(e, target)] for a [*ValidationError] wrapping a sentinel. *)
Definition errors_Is (e : ValidationError.t) (target : Sentinel) : Prop :=
  ValidationError.Err e = target.

Module PolicyError.
Record t := mk { Rule : string; Reason : string }.
End PolicyError.

Definition NewPolicyError (rule reason : string) : PolicyError.t :=
  PolicyError.mk rule reason.

(** ** claims.go *)

Module GitHubActionsClaims.
Record t := mk {
  (* jwt.RegisteredClaims, the fields this package reads *)
  Issuer : string;
  Audience : list string;
  (* Repository information *)
  Repository : string;
  RepositoryOwner : string;
  RepositoryOwnerID : string;
  RepositoryVisibility : string;
  RepositoryID : string;
  (* Git reference information *)
  Ref : string;
  RefType : string;
  SHA : string;
  (* Workflow information *)
  Workflow : string;
  WorkflowRef : string;
  WorkflowSHA : string;
  JobWorkflowRef : string;
  JobWorkflowSHA : string;
  EventName : string;
  RunID : string;
  RunNumber : string;
  RunAttempt : string;
  RunnerEnvironment : string;
  (* Actor information *)
  Actor : string;
  ActorID : string;
  TriggeringActor : string;
  (* Environment information *)
  Environment : string;
  (* Enterprise information *)
  EnterpriseID : string;
  EnterpriseSlug : string
}.

Definition is_empty (s : string) : bool := String.eqb s "".

(** [GitHubActionsClaims.Validate]; [None] is the [nil] error. *)
Definition Validate (c : t) : option ValidationError.t :=
  if negb (String.eqb (Issuer c) "https://token.actions.githubusercontent.com")
  then Some (NewValidationError ErrInvalidIssuer
               (RText "expected https://token.actions.githubusercontent.com"))
  else if is_empty (Repository c)
  then Some (NewValidationError ErrInvalidToken (RText "repository claim is required"))
  else if is_empty (RepositoryOwner c)
  then Some (NewValidationError ErrInvalidToken (RText "repository_owner claim is required"))
  else if is_empty (Ref c)
  then Some (NewValidationError ErrInvalidToken (RText "ref claim is required"))
  else if is_empty (Workflow c)
  then Some (NewValidationError ErrInvalidToken (RText "workflow claim is required"))
  else if is_empty (EventName c)
  then Some (NewValidationError ErrInvalidToken (RText "event_name claim is required"))
  else if is_empty (Actor c)
  then Some (NewValidationError ErrInvalidToken (RText "actor claim is required"))
  else None.
End GitHubActionsClaims.

(** ** policy.go *)

Definition Effect := string.
Definition EffectAllow : Effect := "allow".
Definition EffectDeny : Effect := "deny".

Module Conditions.
Record t := mk {
  Repository : list string;
  RepositoryOwner : list string;
  RepositoryVisibility : list string;
  Ref : list string;
  RefType : list string;
  Workflow : list string;
  EventName : list string;
  Actor : list string;
  Environment : list string
}.
End Conditions.

Module Rule.
Record t := mk {
  Name : string;
  Conditions : Conditions.t;
  Effect : Effect
}.
End Rule.

Module EvaluationResult.
Record t := mk {
  Allowed : bool;
  MatchedRule : string;
  Reason : string
}.
End EvaluationResult.

(** [string(rune(i))] for an [int] index [i]: the conversion to [rune]
    ([int32]) wraps, and the UTF-8 encoding of the code point is the result;
    surrogates and values outside Unicode give U+FFFD. *)
Definition rune_of_int (i : Z) : Z :=
  let m := i mod 2 ^ 32 in if m <? 2 ^ 31 then m else m - 2 ^ 32.

Definition byte_of_Z (z : Z) : ascii := ascii_of_N (Z.to_N (z mod 256)).

Definition string_of_rune (r : Z) : string :=
  let b := byte_of_Z in
  let cont (x : Z) := b (Z.lor 128 (Z.land x 63)) in
  let replacement := string_of_list_ascii [b 239; b 191; b 189] in
  if r <? 0 then replacement
  else if r <? 128 then string_of_list_ascii [b r]
  else if r <? 2048 then
    string_of_list_ascii [b (Z.lor 192 (Z.shiftr r 6)); cont r]
  else if (55296 <=? r) && (r <=? 57343) then replacement
  else if r <? 65536 then
    string_of_list_ascii
      [b (Z.lor 224 (Z.shiftr r 12)); cont (Z.shiftr r 6); cont r]
  else if r <=? 1114111 then
    string_of_list_ascii
      [b (Z.lor 240 (Z.shiftr r 18)); cont (Z.shiftr r 12);
       cont (Z.shiftr r 6); cont r]
  else replacement.

Module Policy.
Import Matcher.

Record t := mk {
  Rules : list Rule.t;
  DefaultDeny : bool
}.

(** [len(xs) > 0] *)
Definition len_positive {A} (xs : list A) : bool := (0 <? Z.of_nat (length xs)).
(** [len(xs) == 0] *)
Definition len_zero {A} (xs : list A) : bool := (Z.of_nat (length xs) =? 0).

(** [Policy.matchesRule].  [claims] is the record behind the pointer:
    the verifier passes the claims the JWT parser filled in. *)
Definition matchesRule (rule : Rule.t) (claims : GitHubActionsClaims.t) : bool :=
  let cond := Rule.Conditions rule in
  if len_positive (Conditions.Repository cond)
     && negb (MatchAny (Conditions.Repository cond)
                       (GitHubActionsClaims.Repository claims))
  then false
  else if len_positive (Conditions.RepositoryOwner cond)
     && negb (MatchAny (Conditions.RepositoryOwner cond)
                       (GitHubActionsClaims.RepositoryOwner claims))
  then false
  else if len_positive (Conditions.RepositoryVisibility cond)
     && negb (MatchAny (Conditions.RepositoryVisibility cond)
                       (GitHubActionsClaims.RepositoryVisibility claims))
  then false
  else if len_positive (Conditions.Ref cond)
     && negb (MatchAny (Conditions.Ref cond)
                       (GitHubActionsClaims.Ref claims))
  then false
  else if len_positive (Conditions.RefType cond)
     && negb (MatchAny (Conditions.RefType cond)
                       (GitHubActionsClaims.RefType claims))
  then false
  else if len_positive (Conditions.Workflow cond)
     && negb (MatchAny (Conditions.Workflow cond)
                       (GitHubActionsClaims.Workflow claims))
  then false
  else if len_positive (Conditions.EventName cond)
     && negb (MatchAny (Conditions.EventName cond)
                       (GitHubActionsClaims.EventName claims))
  then false
  else if len_positive (Conditions.Actor cond)
     && negb (MatchAny (Conditions.Actor cond)
                       (GitHubActionsClaims.Actor claims))
  then false
  else if len_positive (Conditions.Environment cond) then
    (* Environment is optional in claims, so empty matches nothing *)
    if String.eqb (GitHubActionsClaims.Environment claims) "" then false
    else if negb (MatchAny (Conditions.Environment cond)
                           (GitHubActionsClaims.Environment claims))
    then false
    else true
  else true.

(** The [for _, rule := range p.Rules] loop of [Evaluate]: [Some r] when
    the loop returns [r], [None] when it runs to its end. *)
Fixpoint evaluateRules (rules : list Rule.t) (claims : GitHubActionsClaims.t)
  : option EvaluationResult.t :=
  match rules with
  | [] => None
  | rule :: rules' =>
      if matchesRule rule claims then
        let allowed := String.eqb (Rule.Effect rule) EffectAllow in
        let reason :=
          if negb (String.eqb (Rule.Name rule) "")
          then String.append "rule: " (Rule.Name rule)
          else "default" in
        Some (EvaluationResult.mk allowed (Rule.Name rule) reason)
      else evaluateRules rules' claims
  end.

(** [Policy.Evaluate]; the receiver is a pointer, [None] is [nil]. *)
Definition Evaluate (p : option t) (claims : GitHubActionsClaims.t)
  : EvaluationResult.t :=
  match p with
  | None => EvaluationResult.mk true "" "no policy configured"
  | Some p =>
      match evaluateRules (Rules p) claims with
      | Some r => r
      | None =>
          if DefaultDeny p
          then EvaluationResult.mk false "" "default deny policy"
          else EvaluationResult.mk true "" "default allow (no matching rules)"
      end
  end.

(** [len(c.X) == 0 && ...] over the nine condition fields. *)
Definition noConditions (c : Conditions.t) : bool :=
  len_zero (Conditions.Repository c)
  && len_zero (Conditions.RepositoryOwner c)
  && len_zero (Conditions.RepositoryVisibility c)
  && len_zero (Conditions.Ref c)
  && len_zero (Conditions.RefType c)
  && len_zero (Conditions.Workflow c)
  && len_zero (Conditions.EventName c)
  && len_zero (Conditions.Actor c)
  && len_zero (Conditions.Environment c).

(** The [for i, rule := range p.Rules] loop of [Validate], from index [i]. *)
Fixpoint validateRules (i : Z) (rules : list Rule.t) : option PolicyError.t :=
  match rules with
  | [] => None
  | rule :: rules' =>
      if negb (String.eqb (Rule.Effect rule) EffectAllow)
         && negb (String.eqb (Rule.Effect rule) EffectDeny)
      then Some (NewPolicyError (Rule.Name rule) "effect must be 'allow' or 'deny'")
      else if noConditions (Rule.Conditions rule) then
        let ruleName :=
          if String.eqb (Rule.Name rule) ""
          then string_of_rune (rune_of_int i)
          else Rule.Name rule in
        Some (NewPolicyError ruleName "rule must have at least one condition")
      else validateRules (i + 1) rules'
  end.

(** [Policy.Validate]; [None] is the [nil] error. *)
Definition Validate (p : option t) : option PolicyError.t :=
  match p with
  | None => None
  | Some p =>
      if len_zero (Rules p)
      then Some (NewPolicyError "" "policy must have at least one rule")
      else validateRules 0 (Rules p)
  end.

End Policy.

(** ** jwks.go *)

(** [rsa.PublicKey]: modulus [N] ([*big.Int]) and exponent [E] ([int]). *)
Module PublicKey.
Record t := mk { N : Z; E : Z }.
End PublicKey.

Module JWK.
Record t := mk {
  Kid : string;
  Kty : string;
  Alg : string;
  Use : string;
  N : string;
  E : string
}.
End JWK.

Module JWKS.
Record t := mk { Keys : list JWK.t }.
End JWKS.

(** *** Time

    A [time.Time] is an instant in nanoseconds counted from the zero
    [time.Time]; a [time.Duration] is an [int64] of nanoseconds.  [Time.Sub]
    saturates at the largest and smallest [Duration]. *)
Definition maxDuration : Z := 2 ^ 63 - 1.
Definition minDuration : Z := - 2 ^ 63.

Definition Time_Sub (t u : Z) : Z :=
  let d := t - u in
  if maxDuration <? d then maxDuration
  else if d <? minDuration then minDuration
  else d.

(** [time.Since(t)] when the clock reads [now]. *)
Definition time_Since (now t : Z) : Z := Time_Sub now t.

Definition Hour : Z := 3600 * 1000000000.
Definition DefaultJWKSURL : string :=
  "https://token.actions.githubusercontent.com/.well-known/jwks".
Definition DefaultCacheDuration : Z := 1 * Hour.

(** *** The world a fetcher talks to

    What one run of [refresh] gets from outside: building the request can
    fail, the round trip can fail, and otherwise there is a status code and
    whatever [json.NewDecoder(resp.Body).Decode(&jwks)] makes of the body
    (an error text, or the decoded key set). *)
Inductive FetchOutcome :=
| RequestError (msg : string)
| TransportError (msg : string)
| Response (StatusCode : Z) (body : string + JWKS.t).

Definition StatusOK : Z := 200.

(** The readings of one [GetKey] call: the clock at [time.Since], the
    outcome of the fetch, the clock at [time.Now] when the cache is stamped. *)
Record CallEnv := {
  sinceNow : Z;
  fetch : FetchOutcome;
  refreshNow : Z
}.

(** What a call does to the network, in order. *)
Inductive Event :=
| EvNewRequest (url : string)   (* http.NewRequestWithContext(ctx, "GET", url, nil) *)
| EvDo (url : string).          (* f.httpClient.Do(req) *)

Definition isNewRequest (e : Event) : bool :=
  match e with EvNewRequest _ => true | EvDo _ => false end.
Definition isDo (e : Event) : bool :=
  match e with EvDo _ => true | EvNewRequest _ => false end.

(** Every [refresh] starts by building one request, so the requests built
    count the refreshes; the [Do] events count the HTTP round trips. *)
Definition refreshCount (log : list Event) : nat := length (List.filter isNewRequest log).
Definition roundTrips (log : list Event) : nat := length (List.filter isDo log).

(** [jwt.SigningMethod] by dynamic type; [NoMethod] is the nil interface.
    The type assertion of [token.Method] to [*jwt.SigningMethodRSA] succeeds on
    [SigningMethodRSA] alone (RS256, RS384, RS512). *)
Inductive SigningMethod :=
| SigningMethodRSA (alg : string)
| SigningMethodRSAPSS (alg : string)
| SigningMethodHMAC (alg : string)
| SigningMethodECDSA (alg : string)
| SigningMethodEd25519
| SigningMethodNone
| OtherMethod (alg : string)
| NoMethod.

Definition isSigningMethodRSA (m : SigningMethod) : bool :=
  match m with SigningMethodRSA _ => true | _ => false end.

Module Token.
Record t := mk {
  Method : SigningMethod;
  Header : gmap string HeaderValue
}.
End Token.

(** [new(big.Int).SetBytes(buf)]: [buf] read as a big-endian unsigned integer. *)
Definition SetBytes (buf : list ascii) : Z :=
  fold_left (fun acc b => acc * 256 + Z.of_N (N_of_ascii b)) buf 0.

(** [x.Int64()] for [x >= 0]: the low 64 bits, read as a signed integer;
    [int(...)] of it is the same number where [int] has 64 bits. *)
Definition Int64 (x : Z) : Z :=
  let m := x mod 2 ^ 64 in
  if m <? 2 ^ 63 then m else m - 2 ^ 64.

Inductive JWKDecodeError :=
| FailedToDecodeN
| FailedToDecodeE.

Module JWKSFetcher.
Record t := mk {
  url : string;
  cacheDuration : Z;
  cache : gmap string PublicKey.t;
  cachedAt : Z
}.
End JWKSFetcher.

Definition Result (A : Type) : Type := ValidationError.t + A.

Section KeyCache.

(** [base64.RawURLEncoding.DecodeString]: the decoded bytes, or [None]
    when it returns an error. *)
Variable DecodeString : string -> option (list ascii).

Import JWKSFetcher.

(** [NewJWKSFetcher] *)
Definition NewJWKSFetcher (url : string) (cacheDuration : Z) : JWKSFetcher.t :=
  let url := if String.eqb url "" then DefaultJWKSURL else url in
  let cacheDuration :=
    if cacheDuration =? 0 then DefaultCacheDuration else cacheDuration in
  JWKSFetcher.mk url cacheDuration ∅ 0.

(** [jwkToPublicKey] *)
Definition jwkToPublicKey (jwk : JWK.t) : JWKDecodeError + PublicKey.t :=
  match DecodeString (JWK.N jwk) with
  | None => inl FailedToDecodeN
  | Some nBytes =>
      match DecodeString (JWK.E jwk) with
      | None => inl FailedToDecodeE
      | Some eBytes =>
          let n := SetBytes nBytes in
          let e := SetBytes eBytes in
          inr (PublicKey.mk n (Int64 e))
      end
  end.

(** The [for _, jwk := range jwks.Keys] loop of [refresh], filling
    [newCache]. *)
Fixpoint convertKeys (keys : list JWK.t) (newCache : gmap string PublicKey.t)
  : gmap string PublicKey.t :=
  match keys with
  | [] => newCache
  | jwk :: keys' =>
      if negb (String.eqb (JWK.Kty jwk) "RSA") then convertKeys keys' newCache
      else
        match jwkToPublicKey jwk with
        | inl _ => convertKeys keys' newCache   (* skip invalid keys *)
        | inr key => convertKeys keys' (<[JWK.Kid jwk := key]> newCache)
        end
  end.

(** [(f *JWKSFetcher) refresh]: the error ([None] is nil), the fetcher
    afterwards, and the network events. *)
Definition refresh (env : CallEnv) (f : JWKSFetcher.t)
  : option ValidationError.t * JWKSFetcher.t * list Event :=
  match fetch env with
  | RequestError msg =>
      (Some (NewValidationError ErrJWKSFetch (RText msg)), f,
       [EvNewRequest (url f)])
  | TransportError msg =>
      (Some (NewValidationError ErrJWKSFetch (RText msg)), f,
       [EvNewRequest (url f); EvDo (url f)])
  | Response StatusCode body =>
      if negb (StatusCode =? StatusOK) then
        (Some (NewValidationError ErrJWKSFetch (RHTTPStatus StatusCode)), f,
         [EvNewRequest (url f); EvDo (url f)])
      else
        match body with
        | inl msg =>
            (Some (NewValidationError ErrJWKSFetch (RText msg)), f,
             [EvNewRequest (url f); EvDo (url f)])
        | inr jwks =>
            let newCache := convertKeys (JWKS.Keys jwks) ∅ in
            (None,
             JWKSFetcher.mk (url f) (cacheDuration f) newCache (refreshNow env),
             [EvNewRequest (url f); EvDo (url f)])
        end
  end.

(** [(f *JWKSFetcher) GetKey] *)
Definition GetKey (env : CallEnv) (kid : string) (f : JWKSFetcher.t)
  : Result PublicKey.t * JWKSFetcher.t * list Event :=
  let hit :=
    match cache f !! kid with
    | Some key =>
        if time_Since (sinceNow env) (cachedAt f) <? cacheDuration f
        then Some key else None
    | None => None
    end in
  match hit with
  | Some key => (inr key, f, [])
  | None =>
      let '(err, f', log) := refresh env f in
      match err with
      | Some e => (inl e, f', log)
      | None =>
          match cache f' !! kid with
          | None =>
              (inl (NewValidationError ErrKeyNotFound (RKeyIDNotFound kid)),
               f', log)
          | Some key => (inr key, f', log)
          end
      end
  end.

(** The function [Keyfunc(ctx)] returns, applied to [token]. *)
Definition Keyfunc (env : CallEnv) (f : JWKSFetcher.t) (token : Token.t)
  : Result PublicKey.t * JWKSFetcher.t * list Event :=
  if negb (isSigningMethodRSA (Token.Method token)) then
    (inl (NewValidationError ErrInvalidSignature
            (RUnexpectedMethod (Token.Header token !! "alg"))), f, [])
  else
    match Token.Header token !! "kid" with
    | Some (HString kid) => GetKey env kid f
    | _ =>
        (inl (NewValidationError ErrInvalidToken
                (RText "missing kid in token header")), f, [])
    end.

End KeyCache.

(** *** A decoder to run the fetcher with

    Unpadded base64url as Go's [RawURLEncoding] reads it: the alphabet is
    [A-Z a-z 0-9 - _], carriage returns and line feeds are skipped, a final
    group of two or three characters gives one or two bytes, a final group
    of one character is an error, and no padding character is accepted. *)
Definition b64urlValue (c : ascii) : option Z :=
  let n := Z.of_N (N_of_ascii c) in
  if (65 <=? n) && (n <=? 90) then Some (n - 65)
  else if (97 <=? n) && (n <=? 122) then Some (n - 71)
  else if (48 <=? n) && (n <=? 57) then Some (n + 4)
  else if n =? 45 then Some 62
  else if n =? 95 then Some 63
  else None.

Fixpoint b64urlValues (cs : list ascii) : option (list Z) :=
  match cs with
  | [] => Some []
  | c :: cs' =>
      match b64urlValue c, b64urlValues cs' with
      | Some v, Some vs => Some (v :: vs)
      | _, _ => None
      end
  end.

Fixpoint b64Quanta (vs : list Z) : option (list ascii) :=
  match vs with
  | [] => Some []
  | [_] => None
  | [a; b] =>
      Some [byte_of_Z (Z.lor (Z.shiftl a 2) (Z.shiftr b 4))]
  | [a; b; c] =>
      Some [byte_of_Z (Z.lor (Z.shiftl a 2) (Z.shiftr b 4));
            byte_of_Z (Z.lor (Z.shiftl b 4) (Z.shiftr c 2))]
  | a :: b :: c :: d :: vs' =>
      match b64Quanta vs' with
      | Some bs =>
          Some (byte_of_Z (Z.lor (Z.shiftl a 2) (Z.shiftr b 4))
                :: byte_of_Z (Z.lor (Z.shiftl b 4) (Z.shiftr c 2))
                :: byte_of_Z (Z.lor (Z.shiftl c 6) d)
                :: bs)
      | None => None
      end
  end.

Definition isNewline (c : ascii) : bool :=
  let n := Z.of_N (N_of_ascii c) in (n =? 10) || (n =? 13).

Definition RawURLEncoding_DecodeString (s : string) : option (list ascii) :=
  match b64urlValues (List.filter (fun c => negb (isNewline c)) (list_ascii_of_string s)) with
  | Some vs => b64Quanta vs
  | None => None
  end.

(** ** Vocabulary of the specification

    The notions the specification states its properties in, written after
    its words, to be compared with what the code above computes. *)

(** A condition, as the specification words it: inactive (its pattern list
    is empty), or some pattern of the list matches the claim value. *)
Definition conditionHolds (patterns : list string) (value : string) : Prop :=
  patterns = [] \/
  exists pattern, In pattern patterns /\ Matcher.Match pattern value = true.

(** Logical AND of [conditionHolds] across the nine condition fields. *)
Definition conditionsHold (cond : Conditions.t) (claims : GitHubActionsClaims.t)
  : Prop :=
  conditionHolds (Conditions.Repository cond)
                 (GitHubActionsClaims.Repository claims) /\
  conditionHolds (Conditions.RepositoryOwner cond)
                 (GitHubActionsClaims.RepositoryOwner claims) /\
  conditionHolds (Conditions.RepositoryVisibility cond)
                 (GitHubActionsClaims.RepositoryVisibility claims) /\
  conditionHolds (Conditions.Ref cond)
                 (GitHubActionsClaims.Ref claims) /\
  conditionHolds (Conditions.RefType cond)
                 (GitHubActionsClaims.RefType claims) /\
  conditionHolds (Conditions.Workflow cond)
                 (GitHubActionsClaims.Workflow claims) /\
  conditionHolds (Conditions.EventName cond)
                 (GitHubActionsClaims.EventName claims) /\
  conditionHolds (Conditions.Actor cond)
                 (GitHubActionsClaims.Actor claims) /\
  conditionHolds (Conditions.Environment cond)
                 (GitHubActionsClaims.Environment claims).

(** A rule has at least one active condition. *)
Definition hasActiveCondition (c : Conditions.t) : Prop :=
  Conditions.Repository c <> [] \/
  Conditions.RepositoryOwner c <> [] \/
  Conditions.RepositoryVisibility c <> [] \/
  Conditions.Ref c <> [] \/
  Conditions.RefType c <> [] \/
  Conditions.Workflow c <> [] \/
  Conditions.EventName c <> [] \/
  Conditions.Actor c <> [] \/
  Conditions.Environment c <> [].

(** An effect is exactly "allow" or "deny". *)
Definition validEffect (e : Effect) : Prop := e = "allow" \/ e = "deny".

(** A refresh failure, as the specification lists them: the request cannot
    be built, the transport fails, the status is not 200, or the body is
    not a well-formed key set. *)
Definition fetchFails (o : FetchOutcome) : bool :=
  match o with
  | RequestError _ => true
  | TransportError _ => true
  | Response StatusCode body =>
      negb (StatusCode =? 200)
      || match body with inl _ => true | inr _ => false end
  end.

(** The cache age is within the configured duration when [GetKey] reads
    the clock. *)
Definition fresh (env : CallEnv) (f : JWKSFetcher.t) : Prop :=
  time_Since (sinceNow env) (JWKSFetcher.cachedAt f) < JWKSFetcher.cacheDuration f.

(** The big-endian integer of a byte string, by positional weight. *)
Fixpoint bigEndian (buf : list ascii) : Z :=
  match buf with
  | [] => 0
  | b :: buf' =>
      Z.of_N (N_of_ascii b) * 256 ^ Z.of_nat (length buf') + bigEndian buf'
  end.

Section AcceptedKeys.

Variable DecodeString : string -> option (list ascii).

(** An entry of the fetched key set is taken into the cache as [pk]: its
    key type is RSA, [n] and [e] both decode, and [pk] holds the decoded
    numbers. *)
Definition Accepted (jwk : JWK.t) (pk : PublicKey.t) : Prop :=
  JWK.Kty jwk = "RSA" /\
  exists nBytes eBytes,
    DecodeString (JWK.N jwk) = Some nBytes /\
    DecodeString (JWK.E jwk) = Some eBytes /\
    pk = PublicKey.mk (bigEndian nBytes) (Int64 (bigEndian eBytes)).

(** No entry of [keys] with identifier [kid] is taken into the cache. *)
Definition noneAccepted (kid : string) (keys : list JWK.t) : Prop :=
  forall later, In later keys -> JWK.Kid later = kid ->
                forall pk, ~ Accepted later pk.

End AcceptedKeys.

(** ** Fixtures

    The values of the repository's tests, and a few more of the same kind. *)

(** The claims the policy tests start from, with the three attributes that
    claims validation does not require left open. *)
Definition testClaims (visibility refType environment : string)
  : GitHubActionsClaims.t :=
  {| GitHubActionsClaims.Issuer := "https://token.actions.githubusercontent.com";
     GitHubActionsClaims.Audience := [];
     GitHubActionsClaims.Repository := "myorg/myrepo";
     GitHubActionsClaims.RepositoryOwner := "myorg";
     GitHubActionsClaims.RepositoryOwnerID := "";
     GitHubActionsClaims.RepositoryVisibility := visibility;
     GitHubActionsClaims.RepositoryID := "";
     GitHubActionsClaims.Ref := "refs/heads/main";
     GitHubActionsClaims.RefType := refType;
     GitHubActionsClaims.SHA := "";
     GitHubActionsClaims.Workflow := "CI";
     GitHubActionsClaims.WorkflowRef := "";
     GitHubActionsClaims.WorkflowSHA := "";
     GitHubActionsClaims.JobWorkflowRef := "";
     GitHubActionsClaims.JobWorkflowSHA := "";
     GitHubActionsClaims.EventName := "push";
     GitHubActionsClaims.RunID := "";
     GitHubActionsClaims.RunNumber := "";
     GitHubActionsClaims.RunAttempt := "";
     GitHubActionsClaims.RunnerEnvironment := "";
     GitHubActionsClaims.Actor := "johndoe";
     GitHubActionsClaims.ActorID := "";
     GitHubActionsClaims.TriggeringActor := "";
     GitHubActionsClaims.Environment := environment;
     GitHubActionsClaims.EnterpriseID := "";
     GitHubActionsClaims.EnterpriseSlug := "" |}.

(** [baseClaims] of the policy tests: a private repository, a branch, no
    environment. *)
Definition baseClaims : GitHubActionsClaims.t := testClaims "private" "branch" "".

Definition noCond : Conditions.t := Conditions.mk [] [] [] [] [] [] [] [] [].

(** Rules with a single active condition. *)
Definition repositoryRule (name : string) (patterns : list string) (effect : Effect)
  : Rule.t :=
  Rule.mk name (Conditions.mk patterns [] [] [] [] [] [] [] []) effect.

Definition ownerRule (name : string) (patterns : list string) (effect : Effect)
  : Rule.t :=
  Rule.mk name (Conditions.mk [] patterns [] [] [] [] [] [] []) effect.

Definition visibilityRule (name : string) (patterns : list string) (effect : Effect)
  : Rule.t :=
  Rule.mk name (Conditions.mk [] [] patterns [] [] [] [] [] []) effect.

Definition refTypeRule (name : string) (patterns : list string) (effect : Effect)
  : Rule.t :=
  Rule.mk name (Conditions.mk [] [] [] [] patterns [] [] [] []) effect.

Definition environmentRule (name : string) (patterns : list string) (effect : Effect)
  : Rule.t :=
  Rule.mk name (Conditions.mk [] [] [] [] [] [] [] [] patterns) effect.

(** One RSA key with modulus and exponent 65537 ("AQAB"), an entry that
    carries it, and an entry with empty [n] and [e]. *)
Definition testKey : PublicKey.t := PublicKey.mk 65537 65537.

Definition testJWK (kid : string) : JWK.t :=
  JWK.mk kid "RSA" "RS256" "sig" "AQAB" "AQAB".

Definition degenerateJWK (kid : string) : JWK.t := JWK.mk kid "RSA" "" "" "" "".

(** A fetcher whose cache has held [testKey] under "k1" since instant 0,
    with the default duration of one hour. *)
Definition cachedFetcher : JWKSFetcher.t :=
  JWKSFetcher.mk DefaultJWKSURL DefaultCacheDuration {[ "k1" := testKey ]} 0.

(** A call made a microsecond after the cache was filled, and one made two
    hours after. *)
Definition soonEnv (o : FetchOutcome) : CallEnv :=
  {| sinceNow := 1000; fetch := o; refreshNow := 1001 |}.

Definition laterEnv (o : FetchOutcome) : CallEnv :=
  {| sinceNow := 2 * Hour; fetch := o; refreshNow := 2 * Hour + 1 |}.

(** The token of the "wrong signing method" test: HS256, with a key id. *)
Definition hmacToken : Token.t :=
  Token.mk (SigningMethodHMAC "HS256")
    (<["kid" := HString "test-key"]> (<["alg" := HString "HS256"]> ∅)).

(** ** options.go and verifier.go *)

Definition Second : Z := 1000000000.
Definition Minute : Z := 60 * Second.

(** [*http.Client], by the one field this package sets.  Which client makes
    the round trip is part of the world a fetcher talks to ([CallEnv]); a
    verifier only keeps the client it was given. *)
Record HTTPClient := { Timeout : Z }.

(** The [Clock] interface: [DefaultClock{}], or an implementation of the
    caller's, by what its [Now] returns at the n-th call. *)
Inductive Clock :=
| DefaultClock
| InjectedClock (now : nat -> Z).

Module VerificationResult.
Record t := mk {
  Claims : GitHubActionsClaims.t;
  PolicyResult : EvaluationResult.t
}.
End VerificationResult.

(** [jwksFetcher] is nil ([None]) until [New] creates the fetcher. *)
Module Verifier.
Record t := mk {
  policy : option Policy.t;
  audience : string;
  jwksURL : string;
  jwksCacheDuration : Z;
  httpClient : option HTTPClient;
  clock : Clock;
  jwksFetcher : option JWKSFetcher.t
}.
End Verifier.

(** An [Option] is a function on a [*Verifier]; here, the update it makes. *)
Definition Option := Verifier.t -> Verifier.t.

Definition WithPolicy (policy : option Policy.t) : Option :=
  fun v =>
    Verifier.mk policy (Verifier.audience v) (Verifier.jwksURL v)
      (Verifier.jwksCacheDuration v) (Verifier.httpClient v) (Verifier.clock v)
      (Verifier.jwksFetcher v).

Definition WithAudience (audience : string) : Option :=
  fun v =>
    Verifier.mk (Verifier.policy v) audience (Verifier.jwksURL v)
      (Verifier.jwksCacheDuration v) (Verifier.httpClient v) (Verifier.clock v)
      (Verifier.jwksFetcher v).

Definition WithJWKSURL (url : string) : Option :=
  fun v =>
    Verifier.mk (Verifier.policy v) (Verifier.audience v) url
      (Verifier.jwksCacheDuration v) (Verifier.httpClient v) (Verifier.clock v)
      (Verifier.jwksFetcher v).

Definition WithJWKSCacheDuration (duration : Z) : Option :=
  fun v =>
    Verifier.mk (Verifier.policy v) (Verifier.audience v) (Verifier.jwksURL v)
      duration (Verifier.httpClient v) (Verifier.clock v)
      (Verifier.jwksFetcher v).

Definition WithHTTPClient (client : option HTTPClient) : Option :=
  fun v =>
    Verifier.mk (Verifier.policy v) (Verifier.audience v) (Verifier.jwksURL v)
      (Verifier.jwksCacheDuration v) client (Verifier.clock v)
      (Verifier.jwksFetcher v).

Definition WithClock (clock : Clock) : Option :=
  fun v =>
    Verifier.mk (Verifier.policy v) (Verifier.audience v) (Verifier.jwksURL v)
      (Verifier.jwksCacheDuration v) (Verifier.httpClient v) clock
      (Verifier.jwksFetcher v).

(** The verifier [New] starts from. *)
Definition defaultVerifier : Verifier.t :=
  Verifier.mk None "" DefaultJWKSURL DefaultCacheDuration
    (Some {| Timeout := 10 * Second |}) DefaultClock None.

(** The [for _, opt := range opts { opt(v) }] loop of [New]. *)
Fixpoint applyOptions (opts : list Option) (v : Verifier.t) : Verifier.t :=
  match opts with
  | [] => v
  | opt :: opts' => applyOptions opts' (opt v)
  end.

(** [New]: the policy error of a policy that does not validate, or the
    verifier with its fetcher.  The fetcher is given the verifier's client
    when there is one; the fetcher record has no field for it (see
    [HTTPClient]). *)
Definition New (opts : list Option) : PolicyError.t + Verifier.t :=
  let v := applyOptions opts defaultVerifier in
  let invalid :=
    match Verifier.policy v with
    | Some p => Policy.Validate (Some p)
    | None => None
    end in
  match invalid with
  | Some err => inl err
  | None =>
      inr (Verifier.mk (Verifier.policy v) (Verifier.audience v) (Verifier.jwksURL v)
             (Verifier.jwksCacheDuration v) (Verifier.httpClient v) (Verifier.clock v)
             (Some (NewJWKSFetcher (Verifier.jwksURL v) (Verifier.jwksCacheDuration v))))
  end.

(** What [jwt.ParseWithClaims(tokenString, &claims, keyfunc)] returns to
    [parseToken]: an error, by the two tests [parseToken] makes on it
    ([errors.Is] with [jwt.ErrTokenExpired] and [jwt.ErrTokenNotValidYet])
    and its text, or a token, by its [Valid] flag, with the claims it
    filled in.  The call runs the key function ([Keyfunc] above) on the
    verifier's fetcher; what comes of it is part of this outcome. *)
Inductive ParseOutcome :=
| ParseError (isExpired isNotValidYet : bool) (text : string)
| ParseOK (Valid : bool) (claims : GitHubActionsClaims.t).

(** An [error] that [Verify] returns: a sentinel itself, or a
    [*ValidationError] around one. *)
Inductive VerifyError :=
| Bare (sentinel : Sentinel)
| Wrapped (e : ValidationError.t).

(** [errors.Is(err, target)] on such an error. *)
Definition verifyErrorIs (err : VerifyError) (target : Sentinel) : Prop :=
  match err with
  | Bare sentinel => sentinel = target
  | Wrapped e => ValidationError.Err e = target
  end.

(** [(v *Verifier) parseToken], from the outcome of the library call. *)
Definition parseToken (parsed : ParseOutcome) : VerifyError + GitHubActionsClaims.t :=
  match parsed with
  | ParseError isExpired isNotValidYet text =>
      if isExpired then
        inl (Wrapped (NewValidationError ErrTokenExpired (RText "token has expired")))
      else if isNotValidYet then
        inl (Wrapped (NewValidationError ErrInvalidToken (RText "token not valid yet")))
      else
        inl (Wrapped (NewValidationError ErrInvalidToken (RText text)))
  | ParseOK Valid claims =>
      if negb Valid then inl (Bare ErrInvalidToken)
      else inr claims
  end.

(** The audience loop of [Verify]:
    [for _, a := range aud { if a == v.audience { valid = true; break } }].
    [GetAudience] of the registered claims returns the audience list and
    no error. *)
Fixpoint audienceListed (aud : list string) (audience : string) : bool :=
  match aud with
  | [] => false
  | a :: aud' => if String.eqb a audience then true else audienceListed aud' audience
  end.

(** [(v *Verifier) Verify], from the outcome of the library call. *)
Definition Verify (v : Verifier.t) (parsed : ParseOutcome)
  : VerifyError + VerificationResult.t :=
  match parseToken parsed with
  | inl err => inl err
  | inr claims =>
      match GitHubActionsClaims.Validate claims with
      | Some err => inl (Wrapped err)
      | None =>
          if negb (String.eqb (Verifier.audience v) "")
             && negb (audienceListed (GitHubActionsClaims.Audience claims)
                                     (Verifier.audience v))
          then inl (Wrapped (NewValidationError ErrInvalidAudience
                               (RText "audience mismatch")))
          else
            let policyResult := Policy.Evaluate (Verifier.policy v) claims in
            if negb (EvaluationResult.Allowed policyResult) then
              inl (Wrapped (NewValidationError ErrAccessDenied
                              (RText (EvaluationResult.Reason policyResult))))
            else inr (VerificationResult.mk claims policyResult)
      end
  end.



(** The audience check passes: none is configured, or the configured one
    is in the token's list. *)
Definition audienceAccepted (v : Verifier.t) (claims : GitHubActionsClaims.t) : Prop :=
  Verifier.audience v = "" \/
  In (Verifier.audience v) (GitHubActionsClaims.Audience claims).

(** [rule] is the first rule of [rules] that matches [claims]. *)
Definition firstMatch (rules : list Rule.t) (claims : GitHubActionsClaims.t)
  (rule : Rule.t) : Prop :=
  exists pre post,
    rules = pre ++ rule :: post /\
    (forall r, In r pre -> Policy.matchesRule r claims = false) /\
    Policy.matchesRule rule claims = true.

(** No rule of [rules] matches [claims]. *)
Definition noMatch (rules : list Rule.t) (claims : GitHubActionsClaims.t) : Prop :=
  forall r, In r rules -> Policy.matchesRule r claims = false.

(** Two claim sets agree on the nine attributes a condition can name. *)
Definition sameConditionAttributes (c c' : GitHubActionsClaims.t) : Prop :=
  GitHubActionsClaims.Repository c = GitHubActionsClaims.Repository c' /\
  GitHubActionsClaims.RepositoryOwner c = GitHubActionsClaims.RepositoryOwner c' /\
  GitHubActionsClaims.RepositoryVisibility c
  = GitHubActionsClaims.RepositoryVisibility c' /\
  GitHubActionsClaims.Ref c = GitHubActionsClaims.Ref c' /\
  GitHubActionsClaims.RefType c = GitHubActionsClaims.RefType c' /\
  GitHubActionsClaims.Workflow c = GitHubActionsClaims.Workflow c' /\
  GitHubActionsClaims.EventName c = GitHubActionsClaims.EventName c' /\
  GitHubActionsClaims.Actor c = GitHubActionsClaims.Actor c' /\
  GitHubActionsClaims.Environment c = GitHubActionsClaims.Environment c'.

(** * Properties *)

(** ** The pattern matcher *)

Section MatcherFacts.

Import Matcher.

Lemma IndexByte_notin (s : bytes) c : c ∉ s -> IndexByte s c = -1.
Proof.
  induction s as [|x s IH]; simpl; intros H; [reflexivity|].
  apply not_elem_of_cons in H as [Hne Hs].
  destruct (Ascii.eqb_spec x c); [congruence|].
  rewrite IH by assumption. reflexivity.
Qed.

Lemma IndexByte_neg_notin (s : bytes) c : IndexByte s c < 0 -> c ∉ s.
Proof.
  induction s as [|x s IH]; simpl; intros H; [apply not_elem_of_nil|].
  destruct (Ascii.eqb_spec x c); [lia|].
  apply not_elem_of_cons; split; [congruence|].
  apply IH. destruct (Z.ltb_spec (IndexByte s c) 0); lia.
Qed.

Lemma IndexByte_app (s t : bytes) c :
  c ∉ s -> IndexByte (s ++ c :: t) c = Z.of_nat (length s).
Proof.
  induction s as [|x s IH]; simpl; intros H.
  - rewrite Ascii.eqb_refl. reflexivity.
  - apply not_elem_of_cons in H as [Hne Hs].
    destruct (Ascii.eqb_spec x c); [congruence|].
    rewrite IH by assumption.
    destruct (Z.ltb_spec (Z.of_nat (length s)) 0); lia.
Qed.

(** A non-negative index splits the string at the first occurrence. *)
Lemma IndexByte_split (s : bytes) c k :
  IndexByte s c = k -> 0 <= k ->
  (c ∉ take (Z.to_nat k) s) /\ (exists t, drop (Z.to_nat k) s = c :: t).
Proof.
  revert k. induction s as [|x s IH]; simpl; intros k Hk Hpos; [lia|].
  destruct (Ascii.eqb_spec x c) as [->|Hne].
  - subst k. simpl. split; [apply not_elem_of_nil|eauto].
  - destruct (Z.ltb_spec (IndexByte s c) 0) as [Hlt|Hge]; [lia|].
    destruct (IH (IndexByte s c) eq_refl Hge) as [Hnot [t Ht]].
    subst k.
    replace (Z.to_nat (IndexByte s c + 1)) with (S (Z.to_nat (IndexByte s c))) by lia.
    simpl. split; [|eauto].
    apply not_elem_of_cons; split; [congruence|assumption].
Qed.

(** The bounded loop finds a match iff one of the offsets it visits has one. *)
Lemma anyFrom_true f n v :
  anyFrom f n v = true <->
  exists i : nat, (i < n)%nat /\ (i <= length v)%nat /\ f (drop i v) = true.
Proof.
  revert v. induction n as [|n IH]; intros v; simpl.
  - split; [discriminate|]. intros (i & Hi & _). lia.
  - destruct (f v) eqn:Hf.
    + split; [|reflexivity]. intros _. exists 0%nat. repeat split; [lia|lia|exact Hf].
    + destruct v as [|x v].
      * split; [discriminate|]. intros (i & Hi & Hlen & Hfi).
        simpl in Hlen. assert (i = 0%nat) by lia. subst i. simpl in Hfi. congruence.
      * rewrite IH. split.
        -- intros (i & Hi & Hlen & Hfi). exists (S i). simpl.
           repeat split; [lia|lia|exact Hfi].
        -- intros (i & Hi & Hlen & Hfi).
           destruct i as [|i]; [simpl in Hfi; congruence|].
           exists i. simpl in Hlen, Hfi. repeat split; [lia|lia|exact Hfi].
Qed.

Lemma matchInternal_nil v : matchInternal [] v = true <-> v = [].
Proof. destruct v; simpl; split; congruence. Qed.

Lemma hasDoubleStar_lit c p : c <> star -> hasDoubleStar (c :: p) = false.
Proof.
  intros Hc. destruct p as [|b p]; simpl; [reflexivity|].
  destruct (Ascii.eqb_spec c star); [congruence|reflexivity].
Qed.

(** One turn of the loop on a non-empty pattern. *)
Lemma matchInternal_cons p0 p v :
  matchInternal (p0 :: p) v =
  if hasDoubleStar (p0 :: p) then
    match p with
    | [] => false
    | _ :: pattern2 =>
        match pattern2 with
        | [] => true
        | q :: pattern3 =>
            anyFrom (matchInternal (if Ascii.eqb q slash then pattern3 else pattern2))
              (S (length v)) v
        end
    end
  else if Ascii.eqb p0 star then
    (if bytes_eqb (if 0 <=? IndexByte p slash
                   then take (Z.to_nat (IndexByte p slash)) p else p) []
     then
       if 0 <=? IndexByte v slash
       then matchInternal p (drop (Z.to_nat (IndexByte v slash)) v)
       else matchInternal p []
     else anyFrom (matchInternal p)
            (S (Z.to_nat (if 0 <=? IndexByte v slash
                          then IndexByte v slash else Z.of_nat (length v)))) v)
  else match v with
       | [] => bytes_eqb (p0 :: p) [star] || bytes_eqb (p0 :: p) [star; star]
               || bytes_eqb (p0 :: p) []
       | v0 :: value1 =>
           if negb (Ascii.eqb p0 v0) then false else matchInternal p value1
       end.
Proof. reflexivity. Qed.

(** The literal case: the pattern's first byte is no wildcard.  The test
    on the rest of the pattern, once the value is exhausted, never holds
    there. *)
Lemma matchInternal_lit c p v :
  c <> star ->
  matchInternal (c :: p) v =
  match v with
  | [] => false
  | v0 :: v1 => if Ascii.eqb c v0 then matchInternal p v1 else false
  end.
Proof.
  intros Hc. rewrite matchInternal_cons, hasDoubleStar_lit by assumption.
  destruct (Ascii.eqb_spec c star); [congruence|].
  destruct v as [|v0 v1].
  - unfold bytes_eqb. rewrite !bool_decide_eq_false_2; [reflexivity| | |]; congruence.
  - destruct (Ascii.eqb c v0); reflexivity.
Qed.

Lemma matchInternal_lit_inv c p v :
  c <> star -> matchInternal (c :: p) v = true ->
  exists v1, v = c :: v1 /\ matchInternal p v1 = true.
Proof.
  intros Hc. rewrite matchInternal_lit by assumption.
  destruct v as [|v0 v1]; [discriminate|].
  destruct (Ascii.eqb_spec c v0); [|discriminate].
  subst v0. eauto.
Qed.

Lemma slash_not_star : slash <> star.
Proof. discriminate. Qed.

(** The suffix after a [*] is empty iff the rest of the pattern is empty or
    starts with the separator. *)
Lemma suffix_empty p :
  bytes_eqb (if 0 <=? IndexByte p slash
             then take (Z.to_nat (IndexByte p slash)) p else p) [] = true <->
  p = [] \/ exists p', p = slash :: p'.
Proof.
  unfold bytes_eqb. rewrite bool_decide_eq_true.
  destruct p as [|c p]; simpl; [split; auto|].
  destruct (Ascii.eqb_spec c slash) as [->|Hne]; simpl.
  - split; eauto.
  - split.
    + destruct (Z.ltb_spec (IndexByte p slash) 0); simpl; [discriminate|].
      destruct (Z.leb_spec 0 (IndexByte p slash + 1)); [|discriminate].
      replace (Z.to_nat (IndexByte p slash + 1))
        with (S (Z.to_nat (IndexByte p slash))) by lia.
      discriminate.
    + intros [H|[p' H]]; congruence.
Qed.

(** What a single [*] consumes: a span without separator, and any such
    span that leaves a value the rest of the pattern matches. *)
Lemma matchInternal_star p v :
  hasDoubleStar (star :: p) = false ->
  matchInternal (star :: p) v = true <->
  exists s t, v = s ++ t /\ (slash ∉ s) /\ matchInternal p t = true.
Proof.
  intros Hds. rewrite matchInternal_cons, Hds.
  change (Ascii.eqb star star) with true. cbv iota.
  destruct (bytes_eqb _ []) eqn:Hsuf.
  - apply suffix_empty in Hsuf.
    destruct (Z.leb_spec 0 (IndexByte v slash)) as [Hge|Hlt].
    + destruct (IndexByte_split v slash _ eq_refl Hge) as [Hnot [t' Ht']].
      split.
      * intros Hm.
        exists (take (Z.to_nat (IndexByte v slash)) v),
               (drop (Z.to_nat (IndexByte v slash)) v).
        rewrite take_drop. auto.
      * intros (s & t & -> & Hs & Hm).
        destruct Hsuf as [->|[p' ->]].
        -- apply matchInternal_nil in Hm. subst t. rewrite app_nil_r in Hge.
           rewrite IndexByte_notin in Hge by assumption. lia.
        -- apply matchInternal_lit_inv in Hm as (t1 & -> & Hm); [|apply slash_not_star].
           rewrite IndexByte_app by assumption. rewrite Nat2Z.id, drop_app_length.
           rewrite matchInternal_lit by apply slash_not_star.
           rewrite Ascii.eqb_refl. exact Hm.
    + apply IndexByte_neg_notin in Hlt. split.
      * intros Hm. exists v, []. rewrite app_nil_r. auto.
      * intros (s & t & -> & Hs & Hm).
        destruct Hsuf as [->|[p' ->]]; [reflexivity|].
        apply matchInternal_lit_inv in Hm as (t1 & -> & Hm); [|apply slash_not_star].
        exfalso. apply Hlt. apply elem_of_app. right. left.
  - rewrite anyFrom_true. split.
    + intros (i & Hi & Hlen & Hm).
      exists (take i v), (drop i v). rewrite take_drop. repeat split; [|exact Hm].
      destruct (Z.leb_spec 0 (IndexByte v slash)) as [Hge|Hlt].
      * destruct (IndexByte_split v slash _ eq_refl Hge) as [Hnot _].
        intros Hin. apply Hnot.
        replace (take i v) with (take i (take (Z.to_nat (IndexByte v slash)) v)) in Hin.
        -- exact (subseteq_take _ _ _ Hin).
        -- rewrite take_take. f_equal. lia.
      * apply IndexByte_neg_notin in Hlt. intros Hin. apply Hlt.
        exact (subseteq_take _ _ _ Hin).
    + intros (s & t & -> & Hs & Hm).
      exists (length s). rewrite drop_app_length, length_app.
      repeat split; [|lia|exact Hm].
      destruct (Z.leb_spec 0 (IndexByte (s ++ t) slash)) as [Hge|Hlt]; [|lia].
      destruct (IndexByte_split (s ++ t) slash _ eq_refl Hge) as [Hnot [t' Ht']].
      destruct (decide (Z.to_nat (IndexByte (s ++ t) slash) < length s)%nat)
        as [Hlt|]; [|lia].
      exfalso. apply Hs.
      rewrite drop_app_le in Ht' by lia.
      destruct (drop (Z.to_nat (IndexByte (s ++ t) slash)) s) as [|d ds] eqn:Hdrop.
      * apply (f_equal length) in Hdrop. rewrite length_drop in Hdrop.
        simpl in Hdrop. lia.
      * simpl in Ht'. injection Ht' as -> _.
        apply (subseteq_drop (Z.to_nat (IndexByte (s ++ t) slash))).
        rewrite Hdrop. left.
Qed.

Lemma matchInternal_dstar_end v : matchInternal [star; star] v = true.
Proof. reflexivity. Qed.

(** What [**] consumes: any span at all. *)
Lemma matchInternal_dstar_absorb p s t :
  matchInternal p t = true -> matchInternal (star :: star :: p) (s ++ t) = true.
Proof.
  intros Hm. rewrite matchInternal_cons.
  change (hasDoubleStar (star :: star :: p)) with true. cbv iota.
  destruct p as [|q p3]; [reflexivity|].
  apply anyFrom_true.
  destruct (Ascii.eqb_spec q slash) as [->|Hq].
  - apply matchInternal_lit_inv in Hm as (t1 & -> & Hm); [|apply slash_not_star].
    exists (S (length s)). rewrite length_app. simpl.
    repeat split; [lia|lia|].
    replace (drop (S (length s)) (s ++ slash :: t1)) with t1; [exact Hm|].
    change (S (length s)) with (1 + length s)%nat.
    rewrite Nat.add_comm, <- drop_drop, drop_app_length. reflexivity.
  - exists (length s). rewrite length_app, drop_app_length.
    repeat split; [lia|lia|exact Hm].
Qed.

Lemma list_ascii_of_string_app (a b : string) :
  list_ascii_of_string (a +:+ b) = list_ascii_of_string a ++ list_ascii_of_string b.
Proof. induction a as [|c a IH]; simpl; [reflexivity|]. rewrite IH. reflexivity. Qed.

Lemma string_app_of_bytes (v : string) (s t : bytes) :
  list_ascii_of_string v = s ++ t ->
  v = string_of_list_ascii s +:+ string_of_list_ascii t.
Proof.
  intros Hv. rewrite <- (string_of_list_ascii_of_string v), Hv.
  rewrite <- (list_ascii_of_string_of_list_ascii s) at 1.
  rewrite <- (list_ascii_of_string_of_list_ascii t) at 1.
  rewrite <- list_ascii_of_string_app, string_of_list_ascii_of_string. reflexivity.
Qed.

(** [Match] on a pattern that starts with a single [*]. *)
Lemma Match_star (p v : string) :
  (forall p', p <> String "*" p') ->
  (Match (String "*" p) v = true <->
   exists s t : string,
     v = s +:+ t /\ ~ In "/"%char (list_ascii_of_string s) /\ Match p t = true).
Proof.
  intros Hp. unfold Match. simpl list_ascii_of_string.
  rewrite (matchInternal_star (list_ascii_of_string p) (list_ascii_of_string v)).
  - split.
    + intros (s & t & Hv & Hs & Hm).
      exists (string_of_list_ascii s), (string_of_list_ascii t).
      rewrite !list_ascii_of_string_of_list_ascii.
      repeat split; [|rewrite <- list_elem_of_In; exact Hs|exact Hm].
      apply string_app_of_bytes. exact Hv.
    + intros (s & t & -> & Hs & Hm).
      exists (list_ascii_of_string s), (list_ascii_of_string t).
      rewrite list_ascii_of_string_app, list_elem_of_In. auto.
  - destruct p as [|c p]; [reflexivity|]. simpl.
    destruct (Ascii.eqb_spec c star) as [->|]; [|reflexivity].
    exfalso. apply (Hp p). reflexivity.
Qed.

(** C7: [Match("*", v)] is true iff [v] contains no '/', and [Match("**", v)]
    is true for every [v], the empty string included.  More generally,
    where a pattern starts with a single [*] (the next byte is not another
    [*]), the match succeeds iff the value splits into a span without '/',
    which the [*] takes, and a remainder the rest of the pattern matches: the
    [*] never takes a span that contains '/'.  A [**] may take any span,
    with '/' or without: whenever the rest of the pattern matches [t], the
    pattern with [**] in front matches [s ++ t] for every [s]. *)
Theorem Match_wildcards :
  (forall v : string,
      Match "*" v = true <-> ~ In "/"%char (list_ascii_of_string v)) /\
  (forall v : string, Match "**" v = true) /\
  (forall p v : string,
      (forall p', p <> String "*" p') ->
      (Match (String "*" p) v = true <->
       exists s t : string,
         v = s +:+ t /\ ~ In "/"%char (list_ascii_of_string s) /\ Match p t = true)) /\
  (forall p s t : string,
      Match p t = true -> Match ("**" +:+ p) (s +:+ t) = true).
Proof.
  split; [|split; [|split]].
  - intros v. rewrite (Match_star "" v) by discriminate. split.
    + intros (s & t & -> & Hs & Hm). unfold Match in Hm. simpl in Hm.
      apply matchInternal_nil in Hm.
      rewrite list_ascii_of_string_app, Hm, app_nil_r. exact Hs.
    + intros Hv. exists v, "". repeat split; [|exact Hv].
      rewrite <- (string_of_list_ascii_of_string v) at 1.
      rewrite <- (string_of_list_ascii_of_string (v +:+ "")).
      rewrite list_ascii_of_string_app, app_nil_r. reflexivity.
  - intros v. unfold Match. apply matchInternal_dstar_end.
  - exact Match_star.
  - intros p s t Hm. unfold Match in *.
    rewrite !list_ascii_of_string_app. simpl list_ascii_of_string at 1.
    simpl app at 1. apply matchInternal_dstar_absorb. exact Hm.
Qed.

(** The statement at work: "*" against a value with and without '/', a [*]
    in front of "/myrepo", and a [**] taking "refs/heads/feature". *)
Lemma Match_wildcards_witness :
  Match "*" "anything" = true /\
  Match "*" "any/thing" <> true /\
  Match "*/myrepo" "myorg/myrepo" = true /\
  Match "**/new-feature" "refs/heads/feature/new-feature" = true.
Proof.
  destruct Match_wildcards as (Hstar & _ & Hstep & Habsorb).
  split; [|split; [|split]].
  - apply Hstar. vm_compute. intuition discriminate.
  - intros H. apply Hstar in H. apply H. vm_compute. intuition.
  - apply (Hstep "/myrepo" "myorg/myrepo"); [discriminate|].
    exists "myorg", "/myrepo". split; [reflexivity|].
    split; [vm_compute; intuition discriminate|reflexivity].
  - apply (Habsorb "/new-feature" "refs/heads/feature" "/new-feature"). reflexivity.
Defined.

(** On a pattern without [*] the matcher is string equality. *)
Lemma matchInternal_literal p :
  star ∉ p -> forall v, matchInternal p v = true <-> p = v.
Proof.
  induction p as [|c p IH]; intros Hp v.
  - rewrite matchInternal_nil. split; congruence.
  - apply not_elem_of_cons in Hp as [Hc Hp].
    rewrite matchInternal_lit by congruence.
    destruct v as [|v0 v1]; [split; discriminate|].
    destruct (Ascii.eqb_spec c v0) as [->|Hne].
    + rewrite (IH Hp). split; congruence.
    + split; [discriminate|congruence].
Qed.

(** X1: for a pattern without wildcards, [Match(p, v)] holds iff [p] and
    [v] are the same string. *)
Theorem Match_literal (p v : string) :
  ~ In "*"%char (list_ascii_of_string p) ->
  (Match p v = true <-> p = v).
Proof.
  intros Hp. unfold Match.
  rewrite matchInternal_literal by (rewrite list_elem_of_In; exact Hp).
  split; [|congruence].
  intros H. rewrite <- (string_of_list_ascii_of_string p), H.
  apply string_of_list_ascii_of_string.
Qed.

(** The first two rows of [TestMatch]. *)
Lemma Match_literal_witness :
  Match "myorg/myrepo" "myorg/myrepo" = true /\
  Match "myorg/myrepo" "myorg/other" <> true.
Proof.
  assert (Hp : ~ In "*"%char (list_ascii_of_string "myorg/myrepo"))
    by (vm_compute; intuition discriminate).
  split.
  - apply (Match_literal "myorg/myrepo" "myorg/myrepo" Hp). reflexivity.
  - intros H. apply (Match_literal "myorg/myrepo" "myorg/other" Hp) in H.
    discriminate H.
Defined.

(** X2: a single [*] between separators stands for one segment: "a/*/b"
    matches exactly the values "a/" ++ s ++ "/b" with no '/' in [s]; and
    "a/**/b" matches "a/b", the double wildcard standing for no segment. *)
Theorem Match_segment :
  (forall v : string,
      Match "a/*/b" v = true <->
      exists s : string,
        v = "a/" +:+ s +:+ "/b" /\ ~ In "/"%char (list_ascii_of_string s)) /\
  Match "a/**/b" "a/b" = true.
Proof.
  split; [|reflexivity].
  intros v. unfold Match. simpl list_ascii_of_string at 1. split.
  - intros Hm.
    apply matchInternal_lit_inv in Hm as (v1 & Hv & Hm); [|discriminate].
    apply matchInternal_lit_inv in Hm as (v2 & -> & Hm); [|discriminate].
    apply matchInternal_star in Hm as (s & t & -> & Hs & Hm); [|reflexivity].
    apply matchInternal_lit_inv in Hm as (t1 & -> & Hm); [|discriminate].
    apply matchInternal_lit_inv in Hm as (t2 & -> & Hm); [|discriminate].
    apply matchInternal_nil in Hm. subst t2.
    exists (string_of_list_ascii s).
    rewrite list_ascii_of_string_of_list_ascii, <- list_elem_of_In.
    split; [|exact Hs].
    rewrite <- (string_of_list_ascii_of_string v), Hv.
    rewrite <- (string_of_list_ascii_of_string ("a/" +:+ string_of_list_ascii s +:+ "/b")).
    rewrite !list_ascii_of_string_app, list_ascii_of_string_of_list_ascii.
    reflexivity.
  - intros (s & -> & Hs).
    rewrite !list_ascii_of_string_app. cbn [list_ascii_of_string app].
    rewrite matchInternal_lit, Ascii.eqb_refl by discriminate.
    rewrite matchInternal_lit, Ascii.eqb_refl by discriminate.
    apply matchInternal_star; [reflexivity|].
    exists (list_ascii_of_string s), (list_ascii_of_string "/b").
    split; [reflexivity|]. split; [rewrite list_elem_of_In; exact Hs|reflexivity].
Qed.

(** The table of [TestMatch]. *)
Example test_Match_table :
  Match "myorg/myrepo" "myorg/myrepo" = true /\
  Match "myorg/myrepo" "myorg/other" = false /\
  Match "myorg/*" "myorg/myrepo" = true /\
  Match "myorg/*" "myorg/myrepo/extra" = false /\
  Match "*/myrepo" "myorg/myrepo" = true /\
  Match "refs/heads/*" "refs/heads/main" = true /\
  Match "refs/heads/*" "refs/tags/v1.0" = false /\
  Match "*/workflows/*.yml" ".github/workflows/ci.yml" = true /\
  Match "**" "myorg/myrepo/path/to/file" = true /\
  Match "myorg/**" "myorg/myrepo/path" = true /\
  Match "**/file.txt" "path/to/file.txt" = true /\
  Match "myorg/**/ci.yml" "myorg/myrepo/.github/workflows/ci.yml" = true /\
  Match "myorg/**/file" "myorg/file" = true /\
  Match "" "" = true /\
  Match "" "something" = false /\
  Match "something" "" = false /\
  Match "*" "anything" = true /\
  Match "*" "any/thing" = false /\
  Match "refs/heads/*" "refs/heads/feature/new-feature" = false /\
  Match "refs/heads/**" "refs/heads/feature/new-feature" = true /\
  Match "refs/tags/*" "refs/tags/v1.0.0" = true /\
  Match "myorg/*" "otherorg/myrepo" = false /\
  Match "myorg/myrepo/.github/workflows/*.yml"
        "myorg/myrepo/.github/workflows/ci.yml" = true /\
  Match "myorg/**/*.yml" "myorg/myrepo/.github/workflows/ci.yml" = true.
Proof. vm_compute. repeat split. Qed.

End MatcherFacts.

(** ** The policy engine *)

Section PolicyFacts.

Import Matcher Policy.

Lemma MatchAny_true patterns value :
  MatchAny patterns value = true <->
  exists pattern, In pattern patterns /\ Match pattern value = true.
Proof.
  induction patterns as [|p ps IH]; simpl.
  - split; [discriminate|]. intros (p & [] & _).
  - destruct (Match p value) eqn:Hp.
    + split; [|reflexivity]. intros _. exists p. auto.
    + rewrite IH. split.
      * intros (q & Hq & Hm). exists q. auto.
      * intros (q & [->|Hq] & Hm); [congruence|]. exists q. auto.
Qed.

Lemma len_positive_false {A} (xs : list A) : len_positive xs = false <-> xs = [].
Proof.
  unfold len_positive. destruct xs as [|x xs]; cbn [length].
  - split; reflexivity.
  - split; [|discriminate]. intros H. apply Z.ltb_ge in H. lia.
Qed.

Lemma len_positive_true {A} (xs : list A) : len_positive xs = true <-> xs <> [].
Proof.
  unfold len_positive. destruct xs as [|x xs]; cbn [length].
  - split; [discriminate|congruence].
  - split; [discriminate|]. intros _. apply Z.ltb_lt. lia.
Qed.

Lemma len_zero_true {A} (xs : list A) : len_zero xs = true <-> xs = [].
Proof.
  unfold len_zero. destruct xs as [|x xs]; cbn [length].
  - split; reflexivity.
  - split; [|discriminate]. intros H. apply Z.eqb_eq in H. lia.
Qed.

(** One guard of [matchesRule] lets the rule through iff the condition is
    inactive or one of its patterns matches. *)
Lemma guard_passes patterns value :
  len_positive patterns && negb (MatchAny patterns value) = false <->
  conditionHolds patterns value.
Proof.
  unfold conditionHolds. rewrite <- MatchAny_true.
  destruct (len_positive patterns) eqn:Hn; simpl.
  - apply len_positive_true in Hn. rewrite negb_false_iff. tauto.
  - apply len_positive_false in Hn. tauto.
Qed.

Lemma guard_blocks patterns value :
  len_positive patterns && negb (MatchAny patterns value) = true ->
  ~ conditionHolds patterns value.
Proof. intros H Hc. apply guard_passes in Hc. congruence. Qed.

Lemma conditionHolds_nil value : conditionHolds [] value.
Proof. left. reflexivity. Qed.

(** A guard in front of the rest of the checks adds its condition to what
    the rest decides. *)
Lemma guard_step patterns value (rest : bool) (P : Prop) :
  (rest = true <-> P) ->
  ((if len_positive patterns && negb (MatchAny patterns value) then false else rest)
   = true <-> conditionHolds patterns value /\ P).
Proof.
  intros HP.
  destruct (len_positive patterns && negb (MatchAny patterns value)) eqn:Hg.
  - apply guard_blocks in Hg. split; [discriminate|tauto].
  - apply guard_passes in Hg. tauto.
Qed.

(** What [matchesRule] decides, guard by guard: the first eight conditions
    hold, and the environment condition is inactive or holds on a
    non-empty value. *)
Lemma matchesRule_iff rule claims :
  matchesRule rule claims = true <->
  conditionHolds (Conditions.Repository (Rule.Conditions rule))
                 (GitHubActionsClaims.Repository claims) /\
  conditionHolds (Conditions.RepositoryOwner (Rule.Conditions rule))
                 (GitHubActionsClaims.RepositoryOwner claims) /\
  conditionHolds (Conditions.RepositoryVisibility (Rule.Conditions rule))
                 (GitHubActionsClaims.RepositoryVisibility claims) /\
  conditionHolds (Conditions.Ref (Rule.Conditions rule))
                 (GitHubActionsClaims.Ref claims) /\
  conditionHolds (Conditions.RefType (Rule.Conditions rule))
                 (GitHubActionsClaims.RefType claims) /\
  conditionHolds (Conditions.Workflow (Rule.Conditions rule))
                 (GitHubActionsClaims.Workflow claims) /\
  conditionHolds (Conditions.EventName (Rule.Conditions rule))
                 (GitHubActionsClaims.EventName claims) /\
  conditionHolds (Conditions.Actor (Rule.Conditions rule))
                 (GitHubActionsClaims.Actor claims) /\
  (Conditions.Environment (Rule.Conditions rule) = [] \/
   (GitHubActionsClaims.Environment claims <> "" /\
    exists pattern,
      In pattern (Conditions.Environment (Rule.Conditions rule)) /\
      Match pattern (GitHubActionsClaims.Environment claims) = true)).
Proof.
  unfold matchesRule. cbv zeta.
  do 8 apply guard_step.
  destruct (len_positive (Conditions.Environment (Rule.Conditions rule))) eqn:Hn.
  - apply len_positive_true in Hn.
    destruct (String.eqb_spec (GitHubActionsClaims.Environment claims) "") as [He|He].
    + split; [discriminate|]. intros [H|[H _]]; congruence.
    + destruct (MatchAny _ (GitHubActionsClaims.Environment claims)) eqn:Hm; simpl.
      * apply MatchAny_true in Hm. tauto.
      * split; [discriminate|]. intros [H|[_ H]]; [congruence|].
        apply MatchAny_true in H. congruence.
  - apply len_positive_false in Hn. tauto.
Qed.

(** C2, as stated, fails: the rule's only active condition is on the
    environment, its pattern "**" matches the empty environment of
    [baseClaims], so every active condition has a matching pattern, and
    the rule does not match. *)
Lemma matchesRule_not_plain_conjunction :
  ~ (matchesRule (environmentRule "any-env" ["**"] EffectAllow) baseClaims = true <->
     conditionsHold (Rule.Conditions (environmentRule "any-env" ["**"] EffectAllow))
                    baseClaims).
Proof.
  intros [_ H].
  assert (Hm : matchesRule (environmentRule "any-env" ["**"] EffectAllow) baseClaims
               = false) by (vm_compute; reflexivity).
  rewrite H in Hm; [discriminate|].
  unfold conditionsHold, conditionHolds. simpl.
  repeat split; try (left; reflexivity).
  right. exists "**". split; [left; reflexivity|vm_compute; reflexivity].
Qed.

(** C2, amended: for every rule and every claim set, the rule matches iff
    every active condition has at least one pattern in its list that
    matches the corresponding claim value (AND across the nine condition
    fields, OR within a pattern list, an empty list imposing no
    constraint) and, when the environment condition is active, the
    environment claim is not the empty string. *)
Theorem matchesRule_conditions rule claims :
  matchesRule rule claims = true <->
  conditionsHold (Rule.Conditions rule) claims /\
  (Conditions.Environment (Rule.Conditions rule) <> [] ->
   GitHubActionsClaims.Environment claims <> "").
Proof.
  rewrite matchesRule_iff. unfold conditionsHold.
  split.
  - intros (H1&H2&H3&H4&H5&H6&H7&H8&H9). repeat split; try assumption.
    + destruct H9 as [H9|[_ H9]]; [left; exact H9|right; exact H9].
    + intros Hact. destruct H9 as [H9|[H9 _]]; [contradiction|exact H9].
  - intros ((H1&H2&H3&H4&H5&H6&H7&H8&H9)&Henv). repeat split; try assumption.
    destruct H9 as [H9|H9]; [left; exact H9|].
    right. split; [|exact H9].
    apply Henv. destruct H9 as (pattern & Hin & _).
    intros Hnil. rewrite Hnil in Hin. destruct Hin.
Qed.

(** C3, as stated, fails for ref_type: the condition is active, the claim
    value is empty, and the rule matches, its pattern "*" matching the
    empty string. *)
Lemma empty_ref_type_matches :
  Conditions.RefType (Rule.Conditions (refTypeRule "any-ref-type" ["*"] EffectAllow))
  <> [] /\
  GitHubActionsClaims.RefType (testClaims "private" "" "") = "" /\
  matchesRule (refTypeRule "any-ref-type" ["*"] EffectAllow)
              (testClaims "private" "" "") = true.
Proof. split; [discriminate|split; vm_compute; reflexivity]. Qed.

(** C3, amended: for every rule with an active condition on the
    environment, if the environment claim is the empty string the rule
    does not match, whatever the patterns.  The other two attributes that
    claims validation leaves open, repository_visibility and ref_type,
    have no such guard: a rule whose one active condition is on either of
    them matches an empty value iff one of its patterns matches the empty
    string. *)
Theorem empty_environment_never_matches :
  (forall rule claims,
      Conditions.Environment (Rule.Conditions rule) <> [] ->
      GitHubActionsClaims.Environment claims = "" ->
      matchesRule rule claims = false) /\
  (forall name patterns effect claims,
      patterns <> [] ->
      GitHubActionsClaims.RepositoryVisibility claims = "" ->
      matchesRule (visibilityRule name patterns effect) claims = true <->
      exists pattern, In pattern patterns /\ Match pattern "" = true) /\
  (forall name patterns effect claims,
      patterns <> [] ->
      GitHubActionsClaims.RefType claims = "" ->
      matchesRule (refTypeRule name patterns effect) claims = true <->
      exists pattern, In pattern patterns /\ Match pattern "" = true).
Proof.
  split; [|split].
  - intros rule claims Hact Hempty.
    destruct (matchesRule rule claims) eqn:Hm; [|reflexivity].
    apply matchesRule_iff in Hm.
    destruct Hm as (_&_&_&_&_&_&_&_&[H|[H _]]); congruence.
  - intros name patterns effect claims Hact Hv.
    rewrite matchesRule_iff. simpl. rewrite Hv.
    pose proof conditionHolds_nil. unfold conditionHolds. intuition.
  - intros name patterns effect claims Hact Hv.
    rewrite matchesRule_iff. simpl. rewrite Hv.
    pose proof conditionHolds_nil. unfold conditionHolds. intuition.
Qed.

(** The guard at work on the rule of the test "environment condition with
    empty environment denies", and a visibility rule on an empty value. *)
Lemma empty_environment_never_matches_witness :
  matchesRule (environmentRule "allow-production" ["production"] EffectAllow)
              baseClaims = false /\
  matchesRule (visibilityRule "any-visibility" ["**"] EffectAllow)
              (testClaims "" "branch" "") = true.
Proof.
  destruct empty_environment_never_matches as (Henv & Hvis & _).
  split.
  - apply Henv; [discriminate|reflexivity].
  - apply Hvis; [discriminate|reflexivity|].
    exists "**". split; [left; reflexivity|reflexivity].
Defined.

(** *** Claims validation *)

(** X3: [GitHubActionsClaims.Validate] returns nil iff the issuer is GitHub's
    and the six required claims are non-empty; repository_visibility,
    ref_type and environment are not looked at. *)
Theorem Claims_Validate_required c :
  GitHubActionsClaims.Validate c = None <->
  GitHubActionsClaims.Issuer c = "https://token.actions.githubusercontent.com" /\
  GitHubActionsClaims.Repository c <> "" /\
  GitHubActionsClaims.RepositoryOwner c <> "" /\
  GitHubActionsClaims.Ref c <> "" /\
  GitHubActionsClaims.Workflow c <> "" /\
  GitHubActionsClaims.EventName c <> "" /\
  GitHubActionsClaims.Actor c <> "".
Proof.
  unfold GitHubActionsClaims.Validate, GitHubActionsClaims.is_empty.
  destruct (String.eqb_spec (GitHubActionsClaims.Issuer c)
              "https://token.actions.githubusercontent.com");
    simpl; [|split; [discriminate|tauto]].
  repeat match goal with
         | |- context [String.eqb ?x ""] =>
             destruct (String.eqb_spec x ""); [split; [discriminate|tauto]|]
         end.
  tauto.
Qed.

Example Claims_Validate_open_attributes :
  GitHubActionsClaims.Validate (testClaims "" "" "") = None.
Proof. reflexivity. Qed.

(** *** Evaluate *)

Lemma evaluateRules_none rules claims :
  evaluateRules rules claims = None <->
  forall r, In r rules -> matchesRule r claims = false.
Proof.
  induction rules as [|rule rules IH]; simpl.
  - split; [intros _ r []|reflexivity].
  - destruct (matchesRule rule claims) eqn:Hm.
    + split; [discriminate|]. intros H.
      specialize (H rule (or_introl eq_refl)). congruence.
    + rewrite IH. split.
      * intros H r [<-|Hr]; auto.
      * intros H r Hr. apply H. right. exact Hr.
Qed.

(** The loop returns at the first rule that matches. *)
Lemma evaluateRules_first pre rule post claims :
  (forall r, In r pre -> matchesRule r claims = false) ->
  matchesRule rule claims = true ->
  evaluateRules (pre ++ rule :: post) claims =
  Some (EvaluationResult.mk
          (String.eqb (Rule.Effect rule) EffectAllow)
          (Rule.Name rule)
          (if negb (String.eqb (Rule.Name rule) "")
           then String.append "rule: " (Rule.Name rule) else "default")).
Proof.
  intros Hpre Hm. induction pre as [|r pre IH]; simpl.
  - rewrite Hm. reflexivity.
  - rewrite (Hpre r (or_introl eq_refl)). apply IH.
    intros r' Hr'. apply Hpre. right. exact Hr'.
Qed.

(** C1: [Evaluate] on a nil policy returns allowed = true with reason "no
    policy configured".  Otherwise the rules are scanned in declaration
    order and the first rule whose conditions match decides: allowed iff
    its effect is "allow", with its name as the matched rule.  If no rule
    matches, the result is allowed = false with reason "default deny
    policy" when the default-deny flag is true, and allowed = true with
    reason "default allow (no matching rules)" when it is false.  In
    particular, when a deny rule and a later allow rule both match and no
    rule before the deny rule does, the result is deny with the deny
    rule's name as the matched rule. *)
Theorem Evaluate_order_semantics :
  (forall claims,
      EvaluationResult.Allowed (Evaluate None claims) = true /\
      EvaluationResult.Reason (Evaluate None claims) = "no policy configured") /\
  (forall p claims pre rule post,
      Rules p = pre ++ rule :: post ->
      (forall r, In r pre -> matchesRule r claims = false) ->
      matchesRule rule claims = true ->
      (EvaluationResult.Allowed (Evaluate (Some p) claims) = true
       <-> Rule.Effect rule = "allow") /\
      EvaluationResult.MatchedRule (Evaluate (Some p) claims) = Rule.Name rule) /\
  (forall p claims,
      (forall r, In r (Rules p) -> matchesRule r claims = false) ->
      (DefaultDeny p = true ->
       EvaluationResult.Allowed (Evaluate (Some p) claims) = false /\
       EvaluationResult.Reason (Evaluate (Some p) claims) = "default deny policy") /\
      (DefaultDeny p = false ->
       EvaluationResult.Allowed (Evaluate (Some p) claims) = true /\
       EvaluationResult.Reason (Evaluate (Some p) claims)
       = "default allow (no matching rules)")) /\
  (forall p claims pre deny mid allow post,
      Rules p = pre ++ deny :: mid ++ allow :: post ->
      (forall r, In r pre -> matchesRule r claims = false) ->
      matchesRule deny claims = true -> Rule.Effect deny = "deny" ->
      matchesRule allow claims = true -> Rule.Effect allow = "allow" ->
      EvaluationResult.Allowed (Evaluate (Some p) claims) = false /\
      EvaluationResult.MatchedRule (Evaluate (Some p) claims) = Rule.Name deny).
Proof.
  split; [|split; [|split]].
  - intros claims. simpl. auto.
  - intros p claims pre rule post Hrules Hpre Hm. simpl. rewrite Hrules.
    rewrite (evaluateRules_first pre rule post claims Hpre Hm). simpl.
    split; [|reflexivity]. unfold EffectAllow.
    destruct (String.eqb_spec (Rule.Effect rule) "allow"); split; congruence.
  - intros p claims Hnone. simpl.
    apply evaluateRules_none in Hnone. rewrite Hnone.
    split; intros ->; simpl; auto.
  - intros p claims pre deny mid allow post Hrules Hpre Hd Hde Ha Hae. simpl.
    rewrite Hrules.
    rewrite (evaluateRules_first pre deny (mid ++ allow :: post) claims Hpre Hd).
    simpl. rewrite Hde. auto.
Qed.

(** The policy of the test "first matching rule wins". *)
Lemma Evaluate_order_semantics_witness :
  EvaluationResult.Allowed
    (Evaluate (Some (Policy.mk
                       [ownerRule "deny-all" ["myorg"] EffectDeny;
                        repositoryRule "allow-myrepo" ["myorg/myrepo"] EffectAllow]
                       true))
              baseClaims) = false /\
  EvaluationResult.MatchedRule
    (Evaluate (Some (Policy.mk
                       [ownerRule "deny-all" ["myorg"] EffectDeny;
                        repositoryRule "allow-myrepo" ["myorg/myrepo"] EffectAllow]
                       true))
              baseClaims) = "deny-all".
Proof.
  refine (proj2 (proj2 (proj2 Evaluate_order_semantics))
            (Policy.mk [ownerRule "deny-all" ["myorg"] EffectDeny;
                        repositoryRule "allow-myrepo" ["myorg/myrepo"] EffectAllow] true)
            baseClaims []
            (ownerRule "deny-all" ["myorg"] EffectDeny) []
            (repositoryRule "allow-myrepo" ["myorg/myrepo"] EffectAllow) []
            eq_refl _ _ eq_refl _ eq_refl).
  - intros r [].
  - vm_compute; reflexivity.
  - vm_compute; reflexivity.
Defined.

(** C9, as stated, fails for a rule without a name: the rule matches, and
    the reason is "default", not "rule: " followed by the name. *)
Lemma unnamed_rule_reason :
  matchesRule (ownerRule "" ["myorg"] EffectAllow) baseClaims = true /\
  EvaluationResult.Reason
    (Evaluate (Some (Policy.mk [ownerRule "" ["myorg"] EffectAllow] true)) baseClaims)
  = "default" /\
  EvaluationResult.Reason
    (Evaluate (Some (Policy.mk [ownerRule "" ["myorg"] EffectAllow] true)) baseClaims)
  <> String.append "rule: " (Rule.Name (ownerRule "" ["myorg"] EffectAllow)).
Proof. vm_compute. repeat split; discriminate. Qed.

(** C9, amended: for every policy and claim set where some rule matches,
    the result carries the name of the first matching rule in MatchedRule;
    its reason is "rule: " followed by that name when the name is not
    empty, and "default" when the rule has no name. *)
Theorem Evaluate_matched_rule p claims pre rule post :
  Rules p = pre ++ rule :: post ->
  (forall r, In r pre -> matchesRule r claims = false) ->
  matchesRule rule claims = true ->
  EvaluationResult.MatchedRule (Evaluate (Some p) claims) = Rule.Name rule /\
  (Rule.Name rule <> "" ->
   EvaluationResult.Reason (Evaluate (Some p) claims)
   = String.append "rule: " (Rule.Name rule)) /\
  (Rule.Name rule = "" ->
   EvaluationResult.Reason (Evaluate (Some p) claims) = "default").
Proof.
  intros Hrules Hpre Hm. simpl. rewrite Hrules.
  rewrite (evaluateRules_first pre rule post claims Hpre Hm). simpl.
  split; [reflexivity|].
  destruct (String.eqb_spec (Rule.Name rule) ""); simpl; split; congruence.
Qed.

(** The policy of the test "exact repository match allows". *)
Lemma Evaluate_matched_rule_witness :
  EvaluationResult.MatchedRule
    (Evaluate (Some (Policy.mk
                       [repositoryRule "allow-myrepo" ["myorg/myrepo"] EffectAllow] true))
              baseClaims) = "allow-myrepo" /\
  EvaluationResult.Reason
    (Evaluate (Some (Policy.mk
                       [repositoryRule "allow-myrepo" ["myorg/myrepo"] EffectAllow] true))
              baseClaims) = "rule: allow-myrepo".
Proof.
  pose proof (Evaluate_matched_rule
                (Policy.mk [repositoryRule "allow-myrepo" ["myorg/myrepo"] EffectAllow]
                           true)
                baseClaims []
                (repositoryRule "allow-myrepo" ["myorg/myrepo"] EffectAllow) []
                eq_refl) as H.
  destruct H as (H1 & H2 & _).
  - intros r [].
  - vm_compute; reflexivity.
  - split; [exact H1|]. apply H2. discriminate.
Defined.

(** Rows of [TestPolicy_Evaluate], and the two scenarios the
    specification ends on. *)
Example test_Evaluate_table :
  EvaluationResult.Allowed (Evaluate None baseClaims) = true /\
  Evaluate (Some (Policy.mk [ownerRule "allow-org" ["myorg"] EffectAllow] true))
           baseClaims
  = EvaluationResult.mk true "allow-org" "rule: allow-org" /\
  Evaluate (Some (Policy.mk
                    [Rule.mk "allow-main-push"
                       (Conditions.mk ["myorg/myrepo"] [] [] ["refs/heads/main"] []
                                      [] ["push"] [] [])
                       EffectAllow] true))
           baseClaims
  = EvaluationResult.mk true "allow-main-push" "rule: allow-main-push" /\
  Evaluate (Some (Policy.mk
                    [Rule.mk "allow-develop"
                       (Conditions.mk ["myorg/myrepo"] [] [] ["refs/heads/develop"] []
                                      [] [] [] [])
                       EffectAllow] true))
           baseClaims
  = EvaluationResult.mk false "" "default deny policy" /\
  Evaluate (Some (Policy.mk
                    [repositoryRule "deny-otherrepo" ["myorg/otherrepo"] EffectDeny]
                    false))
           baseClaims
  = EvaluationResult.mk true "" "default allow (no matching rules)" /\
  Evaluate (Some (Policy.mk
                    [environmentRule "allow-production" ["production"] EffectAllow]
                    true))
           (testClaims "" "" "production")
  = EvaluationResult.mk true "allow-production" "rule: allow-production" /\
  Evaluate (Some (Policy.mk
                    [visibilityRule "allow-private-repos" ["private"] EffectAllow]
                    true))
           baseClaims
  = EvaluationResult.mk true "allow-private-repos" "rule: allow-private-repos".
Proof. vm_compute. repeat split. Qed.

(** *** Validate *)

Lemma noConditions_true c : noConditions c = true <-> ~ hasActiveCondition c.
Proof.
  unfold noConditions, hasActiveCondition.
  rewrite !andb_true_iff, !len_zero_true.
  split.
  - intros H. decompose [and] H. intuition congruence.
  - intros H.
    repeat split;
      match goal with
      | |- ?xs = [] => destruct xs eqn:E; [reflexivity|exfalso; apply H]
      end; rewrite ?E; intuition discriminate.
Qed.

Lemma effect_check e :
  negb (String.eqb e EffectAllow) && negb (String.eqb e EffectDeny) = false <->
  validEffect e.
Proof.
  unfold validEffect, EffectAllow, EffectDeny.
  destruct (String.eqb_spec e "allow"), (String.eqb_spec e "deny"); simpl;
    intuition congruence.
Qed.

(** The loop of [Validate] runs to its end iff every rule passes both
    checks, whatever the index it starts from. *)
Lemma validateRules_none rules : forall i,
  validateRules i rules = None <->
  forall r, In r rules ->
            validEffect (Rule.Effect r) /\ hasActiveCondition (Rule.Conditions r).
Proof.
  induction rules as [|rule rules IH]; intros i; simpl.
  - split; [intros _ r []|reflexivity].
  - destruct (negb (String.eqb (Rule.Effect rule) EffectAllow)
              && negb (String.eqb (Rule.Effect rule) EffectDeny)) eqn:He.
    + split; [discriminate|]. intros H.
      destruct (H rule (or_introl eq_refl)) as [Hv _].
      apply effect_check in Hv. congruence.
    + apply effect_check in He.
      destruct (noConditions (Rule.Conditions rule)) eqn:Hc.
      * apply noConditions_true in Hc.
        split; [discriminate|]. intros H.
        destruct (H rule (or_introl eq_refl)) as [_ Ha]. contradiction.
      * assert (Ha : hasActiveCondition (Rule.Conditions rule)).
        { destruct (Rule.Conditions rule) as [a b c d e f g h k].
          unfold noConditions in Hc. unfold hasActiveCondition. simpl in *.
          rewrite !andb_false_iff in Hc.
          repeat match goal with
                 | H : _ \/ _ |- _ => destruct H
                 | H : len_zero ?xs = false |- _ =>
                     assert (xs <> []) by (intros ->; discriminate H); clear H
                 end; tauto. }
        rewrite IH. split.
        -- intros H r [<-|Hr]; auto.
        -- intros H r Hr. apply H. right. exact Hr.
Qed.

(** C8: [Validate] returns nil for a nil policy and for any policy with at
    least one rule in which every rule has effect exactly "allow" or "deny"
    and at least one active condition; it returns an error for a policy
    with an empty rule list, for a policy with a rule whose effect is
    outside allow and deny, and for a policy with a rule that has no
    active condition. *)
Theorem Validate_accepts_and_rejects :
  Validate None = None /\
  (forall p,
      Rules p <> [] ->
      (forall r, In r (Rules p) ->
                 validEffect (Rule.Effect r) /\ hasActiveCondition (Rule.Conditions r)) ->
      Validate (Some p) = None) /\
  (forall p, Rules p = [] -> Validate (Some p) <> None) /\
  (forall p r, In r (Rules p) -> ~ validEffect (Rule.Effect r) ->
               Validate (Some p) <> None) /\
  (forall p r, In r (Rules p) -> ~ hasActiveCondition (Rule.Conditions r) ->
               Validate (Some p) <> None).
Proof.
  split; [reflexivity|]. split; [|split; [|split]].
  - intros p Hne Hall. simpl.
    destruct (len_zero (Rules p)) eqn:He; [apply len_zero_true in He; contradiction|].
    apply validateRules_none. exact Hall.
  - intros p Hnil. simpl. rewrite Hnil. discriminate.
  - intros p r Hin Hbad. simpl.
    destruct (len_zero (Rules p)); [discriminate|].
    intros Hnone. rewrite validateRules_none in Hnone.
    apply Hbad. apply (Hnone r Hin).
  - intros p r Hin Hbad. simpl.
    destruct (len_zero (Rules p)); [discriminate|].
    intros Hnone. rewrite validateRules_none in Hnone.
    apply Hbad. apply (Hnone r Hin).
Qed.

(** The policies of [TestPolicy_Validate]: valid, empty rules, invalid
    effect, no conditions. *)
Lemma Validate_accepts_and_rejects_witness :
  Validate (Some (Policy.mk [repositoryRule "" ["myorg/*"] EffectAllow] true)) = None /\
  Validate (Some (Policy.mk [] true)) <> None /\
  Validate (Some (Policy.mk [repositoryRule "" ["myorg/*"] "invalid"] true)) <> None /\
  Validate (Some (Policy.mk [Rule.mk "" noCond EffectAllow] true)) <> None.
Proof.
  destruct Validate_accepts_and_rejects as (_ & Hok & Hnil & Heff & Hcond).
  split; [|split; [|split]].
  - apply Hok; [discriminate|].
    intros r [<-|[]]. split; [left; reflexivity|left; discriminate].
  - apply Hnil. reflexivity.
  - apply (Heff _ (repositoryRule "" ["myorg/*"] "invalid")); [left; reflexivity|].
    intros [H|H]; discriminate H.
  - apply (Hcond _ (Rule.mk "" noCond EffectAllow)); [left; reflexivity|].
    unfold hasActiveCondition. simpl. intuition congruence.
Defined.

(** The reporting of a rule without conditions and without a name: the
    positional fallback is the one-byte string of the rule's index. *)
Example Validate_positional_name :
  Validate (Some (Policy.mk [Rule.mk "" noCond EffectAllow] true))
  = Some (NewPolicyError (String "000" "") "rule must have at least one condition") /\
  Validate (Some (Policy.mk [repositoryRule "r0" ["a"] EffectAllow;
                             Rule.mk "" noCond EffectDeny] true))
  = Some (NewPolicyError (String "001" "") "rule must have at least one condition").
Proof. split; vm_compute; reflexivity. Qed.

End PolicyFacts.

(** ** The key cache *)

Section KeyCacheFacts.

Import JWKSFetcher.

Variable DecodeString : string -> option (list ascii).

(** A refresh builds one request and makes at most one round trip. *)
Lemma refresh_log env f :
  refreshCount (refresh DecodeString env f).2 = 1%nat /\
  (roundTrips (refresh DecodeString env f).2 <= 1)%nat.
Proof.
  unfold refresh, refreshCount, roundTrips.
  destruct (fetch env) as [msg|msg|code body]; simpl; [lia|lia|].
  destruct (negb (code =? StatusOK)); simpl; [lia|].
  destruct body; simpl; lia.
Qed.

(** A failing refresh returns the fetch error and the fetcher as it was. *)
Lemma refresh_failure env f :
  fetchFails (fetch env) = true ->
  exists e log,
    refresh DecodeString env f = (Some e, f, log) /\ errors_Is e ErrJWKSFetch.
Proof.
  unfold refresh, fetchFails, StatusOK.
  destruct (fetch env) as [msg|msg|code body]; simpl.
  - intros _. eexists _, _. split; reflexivity.
  - intros _. eexists _, _. split; reflexivity.
  - destruct (negb (code =? 200)); simpl.
    + intros _. eexists _, _. split; reflexivity.
    + destruct body; [|discriminate]. intros _. eexists _, _. split; reflexivity.
Qed.

Lemma GetKey_hit env kid f key :
  cache f !! kid = Some key -> fresh env f ->
  GetKey DecodeString env kid f = (inr key, f, []).
Proof.
  unfold GetKey, fresh. intros -> Hfresh.
  apply Z.ltb_lt in Hfresh. rewrite Hfresh. reflexivity.
Qed.

Lemma GetKey_miss env kid f :
  cache f !! kid = None \/ ~ fresh env f ->
  GetKey DecodeString env kid f =
  let '(err, f', log) := refresh DecodeString env f in
  match err with
  | Some e => (inl e, f', log)
  | None =>
      match cache f' !! kid with
      | None => (inl (NewValidationError ErrKeyNotFound (RKeyIDNotFound kid)), f', log)
      | Some key => (inr key, f', log)
      end
  end.
Proof.
  unfold GetKey, fresh. intros [->|Hstale]; [reflexivity|].
  destruct (cache f !! kid); [|reflexivity].
  destruct (Z.ltb_spec (time_Since (sinceNow env) (cachedAt f)) (cacheDuration f));
    [contradiction|reflexivity].
Qed.

(** C4: a [GetKey] call for an identifier present in the cache, with the
    cache age within the configured duration, returns that key without
    fetching (no network event, the fetcher unchanged).  On a miss (the
    identifier absent, or the cache stale) [refresh] runs exactly once:
    one request is built and at most one round trip made, and the call
    ends with the outcome of that one refresh.  An error of the refresh is
    the result; after a successful refresh the new cache is looked up
    again, a key found there is returned, and an identifier still absent
    gives an error of the [ErrKeyNotFound] category. *)
Theorem GetKey_lookup_protocol env kid f res f' log :
  GetKey DecodeString env kid f = (res, f', log) ->
  (forall key, cache f !! kid = Some key -> fresh env f ->
               res = inr key /\ f' = f /\ log = []) /\
  (cache f !! kid = None \/ ~ fresh env f ->
   exists err,
     refresh DecodeString env f = (err, f', log) /\
     refreshCount log = 1%nat /\ (roundTrips log <= 1)%nat /\
     (forall e, err = Some e -> res = inl e) /\
     (err = None ->
      (forall key, cache f' !! kid = Some key -> res = inr key) /\
      (cache f' !! kid = None ->
       exists e, res = inl e /\ errors_Is e ErrKeyNotFound))).
Proof.
  intros Hget. split.
  - intros key Hk Hfresh. rewrite (GetKey_hit env kid f key Hk Hfresh) in Hget.
    inversion Hget. auto.
  - intros Hmiss. rewrite (GetKey_miss env kid f Hmiss) in Hget.
    pose proof (refresh_log env f) as [Hcount Htrips].
    destruct (refresh DecodeString env f) as [[err f1] log1].
    simpl in Hcount, Htrips.
    exists err. destruct err as [e|].
    + inversion Hget; subst.
      repeat split; auto; try discriminate. intros e' He'. congruence.
    + destruct (cache f1 !! kid) as [key|] eqn:Hk; inversion Hget; subst;
        rewrite ?Hk; repeat split; auto; try discriminate.
      * intros key' Hk'. congruence.
      * intros _. eexists. split; reflexivity.
Qed.

(** C5, amended: for every refresh failure (the request cannot be built,
    the transport fails, the status is not 200, the body is malformed) the
    cached key set and its fetch timestamp are left untouched, and the
    refresh returns an error of the [ErrJWKSFetch] category.  A key of the
    cached set stays usable while the cache age is within the configured
    duration; once the cache is stale (or the identifier is absent) a
    [GetKey] call whose refresh fails returns that fetch error, not the
    stale key. *)
Theorem refresh_failure_keeps_cache env f :
  fetchFails (fetch env) = true ->
  (exists e log,
      refresh DecodeString env f = (Some e, f, log) /\ errors_Is e ErrJWKSFetch) /\
  (forall kid key,
      cache f !! kid = Some key -> fresh env f ->
      GetKey DecodeString env kid f = (inr key, f, [])) /\
  (forall kid,
      cache f !! kid = None \/ ~ fresh env f ->
      exists e log,
        GetKey DecodeString env kid f = (inl e, f, log) /\ errors_Is e ErrJWKSFetch).
Proof.
  intros Hfail. split; [apply refresh_failure; exact Hfail|]. split.
  - intros kid key. apply GetKey_hit.
  - intros kid Hmiss. rewrite (GetKey_miss env kid f Hmiss).
    destruct (refresh_failure env f Hfail) as (e & log & -> & He).
    exists e, log. split; [reflexivity|exact He].
Qed.

(** C6: for every token whose signing method is not of the RSA type the
    key function returns an error of the [ErrInvalidSignature] category,
    with no network event and the fetcher unchanged; and the result is
    the same for any other token with that method and that "alg" header,
    whatever its "kid" header, the cache, the clock and the network: the
    key id is not read and [GetKey] is not called. *)
Theorem Keyfunc_rejects_non_RSA env f token :
  isSigningMethodRSA (Token.Method token) = false ->
  (exists e,
      Keyfunc DecodeString env f token = (inl e, f, []) /\
      errors_Is e ErrInvalidSignature) /\
  (forall env' f' token',
      Token.Method token' = Token.Method token ->
      Token.Header token' !! "alg" = Token.Header token !! "alg" ->
      (Keyfunc DecodeString env' f' token').1.1
      = (Keyfunc DecodeString env f token).1.1).
Proof.
  intros Hm. unfold Keyfunc. rewrite Hm. simpl. split.
  - eexists. split; reflexivity.
  - intros env' f' token' Hmeth Halg. rewrite Hmeth, Hm, Halg. reflexivity.
Qed.

(** X4: a call on a stale cache fetches the key set again: when the refresh
    succeeds, one request is built, one round trip made, and the cache is
    stamped with the time of that refresh. *)
Theorem GetKey_refreshes_stale_cache env kid f jwks :
  ~ fresh env f ->
  fetch env = Response 200 (inr jwks) ->
  exists res f',
    GetKey DecodeString env kid f
    = (res, f', [EvNewRequest (url f); EvDo (url f)]) /\
    cachedAt f' = refreshNow env.
Proof.
  intros Hstale Hfetch.
  rewrite (GetKey_miss env kid f (or_intror Hstale)).
  unfold refresh. rewrite Hfetch. simpl.
  destruct (convertKeys DecodeString (JWKS.Keys jwks) ∅ !! kid);
    eexists _, _; split; reflexivity.
Qed.

Lemma SetBytes_acc buf : forall acc,
  fold_left (fun acc b => acc * 256 + Z.of_N (N_of_ascii b)) buf acc
  = acc * 256 ^ Z.of_nat (length buf) + bigEndian buf.
Proof.
  induction buf as [|b buf IH]; intros acc; simpl fold_left.
  - simpl. lia.
  - rewrite IH. cbn [length bigEndian].
    rewrite Nat2Z.inj_succ, Z.pow_succ_r by lia. lia.
Qed.

(** [SetBytes] reads its argument as a big-endian integer. *)
Lemma SetBytes_bigEndian buf : SetBytes buf = bigEndian buf.
Proof. unfold SetBytes. rewrite SetBytes_acc. lia. Qed.

Lemma jwkToPublicKey_inr jwk pk :
  JWK.Kty jwk = "RSA" ->
  (jwkToPublicKey DecodeString jwk = inr pk <-> Accepted DecodeString jwk pk).
Proof.
  intros Hkty. unfold jwkToPublicKey, Accepted.
  destruct (DecodeString (JWK.N jwk)) as [nb|].
  - destruct (DecodeString (JWK.E jwk)) as [eb|].
    + rewrite !SetBytes_bigEndian. split.
      * intros H. injection H as <-. split; [exact Hkty|]. exists nb, eb. auto.
      * intros (_ & nb' & eb' & Hn & He & ->). congruence.
    + split; [discriminate|]. intros (_ & nb' & eb' & _ & He & _). discriminate.
  - split; [discriminate|]. intros (_ & nb' & eb' & Hn & _). discriminate.
Qed.

(** The conversion loop: an identifier maps to the key of its last
    accepted entry, or keeps what [newCache] had when no entry with it is
    accepted. *)
Lemma convertKeys_lookup keys : forall newCache kid pk,
  convertKeys DecodeString keys newCache !! kid = Some pk <->
  (exists pre jwk post,
      keys = pre ++ jwk :: post /\ JWK.Kid jwk = kid /\
      Accepted DecodeString jwk pk /\ noneAccepted DecodeString kid post) \/
  (newCache !! kid = Some pk /\ noneAccepted DecodeString kid keys).
Proof.
  induction keys as [|jwk keys IH]; intros newCache kid pk.
  - simpl. split.
    + intros H. right. split; [exact H|]. intros later [].
    + intros [(pre & j & post & Hk & _)|[H _]]; [|exact H].
      destruct pre; discriminate.
  - assert (Hskip :
      (forall pk', ~ Accepted DecodeString jwk pk') ->
      (convertKeys DecodeString keys newCache !! kid = Some pk <->
       (exists pre j post,
           jwk :: keys = pre ++ j :: post /\ JWK.Kid j = kid /\
           Accepted DecodeString j pk /\ noneAccepted DecodeString kid post) \/
       (newCache !! kid = Some pk /\ noneAccepted DecodeString kid (jwk :: keys)))).
    { intros Hrej. rewrite IH. split.
      - intros [(pre & j & post & -> & Hj)|[Hm Hnone]].
        + left. exists (jwk :: pre), j, post. auto.
        + right. split; [exact Hm|].
          intros later [<-|Hin] Hkid pk';
            [apply Hrej|exact (Hnone later Hin Hkid pk')].
      - intros [(pre & j & post & Hk & Hkid & Hacc & Hnone)|[Hm Hnone]].
        + destruct pre as [|j0 pre]; simpl in Hk; injection Hk as <- ->.
          * exfalso. exact (Hrej pk Hacc).
          * left. exists pre, j, post. auto.
        + right. split; [exact Hm|].
          intros later Hin. apply Hnone. right. exact Hin. }
    simpl.
    destruct (String.eqb_spec (JWK.Kty jwk) "RSA") as [Hkty|Hkty]; simpl.
    + destruct (jwkToPublicKey DecodeString jwk) as [err|key] eqn:Hconv.
      * apply Hskip. intros pk' Hacc.
        apply (jwkToPublicKey_inr jwk pk' Hkty) in Hacc. congruence.
      * apply (jwkToPublicKey_inr jwk key Hkty) in Hconv.
        rewrite IH. split.
        -- intros [(pre & j & post & -> & Hj)|[Hm Hnone]].
           ++ left. exists (jwk :: pre), j, post. auto.
           ++ destruct (decide (JWK.Kid jwk = kid)) as [Hkid|Hkid].
              ** rewrite Hkid, lookup_insert_eq in Hm. injection Hm as <-.
                 left. exists [], jwk, keys. auto.
              ** rewrite lookup_insert_ne in Hm by exact Hkid.
                 right. split; [exact Hm|].
                 intros later [<-|Hin] Hk pk';
                   [contradiction|exact (Hnone later Hin Hk pk')].
        -- intros [(pre & j & post & Hk & Hkid & Hacc & Hnone)|[Hm Hnone]].
           ++ destruct pre as [|j0 pre]; simpl in Hk; injection Hk as <- ->.
              ** right. rewrite Hkid, lookup_insert_eq.
                 destruct Hconv as (_ & nb & eb & Hn & He & ->).
                 destruct Hacc as (_ & nb' & eb' & Hn' & He' & ->).
                 split; [congruence|exact Hnone].
              ** left. exists pre, j, post. auto.
           ++ right. destruct (decide (JWK.Kid jwk = kid)) as [Hkid|Hkid].
              ** exfalso. exact (Hnone jwk (or_introl eq_refl) Hkid key Hconv).
              ** rewrite lookup_insert_ne by exact Hkid. split; [exact Hm|].
                 intros later Hin. apply Hnone. right. exact Hin.
    + apply Hskip. intros pk' (Hk & _). contradiction.
Qed.

(** C10: after a successful refresh (status 200, a body that decodes) the
    cache is stamped with the time of the refresh and maps an identifier
    to a key iff the fetched set has an entry with that kid whose kty is
    "RSA" and whose n and e decode as unpadded base64url, no later entry
    with that kid being such (a later duplicate overwrites an earlier
    one); the key holds the big-endian integer of the decoded n bytes as
    modulus.  Nothing else is checked: with a decoder that reads the empty
    string as no bytes, a last entry with kty "RSA" and empty n and e is
    in the cache, with modulus and exponent zero. *)
Theorem refresh_cache_contents env f jwks :
  fetch env = Response 200 (inr jwks) ->
  exists f',
    refresh DecodeString env f = (None, f', [EvNewRequest (url f); EvDo (url f)]) /\
    cachedAt f' = refreshNow env /\
    (forall kid pk,
        cache f' !! kid = Some pk <->
        exists pre jwk post,
          JWKS.Keys jwks = pre ++ jwk :: post /\
          JWK.Kid jwk = kid /\
          Accepted DecodeString jwk pk /\
          noneAccepted DecodeString kid post) /\
    (DecodeString "" = Some [] ->
     forall pre jwk,
       JWKS.Keys jwks = pre ++ [jwk] ->
       JWK.Kty jwk = "RSA" -> JWK.N jwk = "" -> JWK.E jwk = "" ->
       cache f' !! JWK.Kid jwk = Some (PublicKey.mk 0 0)).
Proof.
  intros Hfetch. unfold refresh. rewrite Hfetch. simpl.
  eexists. split; [reflexivity|]. simpl. split; [reflexivity|].
  assert (Hchar : forall kid pk,
    convertKeys DecodeString (JWKS.Keys jwks) ∅ !! kid = Some pk <->
    exists pre jwk post,
      JWKS.Keys jwks = pre ++ jwk :: post /\
      JWK.Kid jwk = kid /\
      Accepted DecodeString jwk pk /\
      noneAccepted DecodeString kid post).
  { intros kid pk. rewrite convertKeys_lookup. split.
    - intros [H|[H _]]; [exact H|]. rewrite lookup_empty in H. discriminate.
    - intros H. left. exact H. }
  split; [exact Hchar|].
  intros Hempty pre jwk Hkeys Hkty Hn He.
  apply Hchar. exists pre, jwk, [].
  split; [exact Hkeys|]. split; [reflexivity|]. split.
  - split; [exact Hkty|]. exists [], []. rewrite Hn, He. auto.
  - intros later [].
Qed.

End KeyCacheFacts.

(** *** The fetcher at work, with the base64url decoder *)

Example RawURLEncoding_DecodeString_samples :
  SetBytes <$> RawURLEncoding_DecodeString "AQAB" = Some 65537 /\
  SetBytes <$> RawURLEncoding_DecodeString "_w" = Some 255 /\
  RawURLEncoding_DecodeString "" = Some [] /\
  RawURLEncoding_DecodeString "AQAB=" = None /\
  RawURLEncoding_DecodeString "AQA/" = None /\
  RawURLEncoding_DecodeString "AQABA" = None.
Proof. vm_compute. repeat split. Qed.

(** A hit a microsecond after the cache was filled, and a miss for "k2" two
    hours later that refreshes once. *)
Lemma GetKey_lookup_protocol_witness :
  GetKey RawURLEncoding_DecodeString (soonEnv (TransportError "connection refused")) "k1"
         cachedFetcher
  = (inr testKey, cachedFetcher, []) /\
  refreshCount
    (GetKey RawURLEncoding_DecodeString
       (laterEnv (Response 200 (inr (JWKS.mk [testJWK "k1"])))) "k2"
       cachedFetcher).2 = 1%nat.
Proof.
  split.
  - destruct (GetKey RawURLEncoding_DecodeString (soonEnv (TransportError "connection refused"))
                "k1" cachedFetcher) as [[res f'] log] eqn:Hget.
    destruct (GetKey_lookup_protocol _ _ _ _ _ _ _ Hget) as [Hhit _].
    destruct (Hhit testKey) as (-> & -> & ->).
    + reflexivity.
    + unfold fresh. vm_compute. reflexivity.
    + reflexivity.
  - destruct (GetKey RawURLEncoding_DecodeString
                (laterEnv (Response 200 (inr (JWKS.mk [testJWK "k1"])))) "k2"
                cachedFetcher) as [[res f'] log] eqn:Hget.
    destruct (GetKey_lookup_protocol _ _ _ _ _ _ _ Hget) as [_ Hmiss].
    destruct Hmiss as (err & _ & Hcount & _).
    + left. reflexivity.
    + exact Hcount.
Defined.

(** C5, as stated, fails: "k1" is in the cached set, the cache is two
    hours old with a duration of one hour, the refresh fails on the
    transport, and [GetKey] returns the fetch error with the cache
    untouched, not the stale key. *)
Lemma stale_key_not_served :
  JWKSFetcher.cache cachedFetcher !! "k1" = Some testKey /\
  ~ fresh (laterEnv (TransportError "connection refused")) cachedFetcher /\
  fetchFails (fetch (laterEnv (TransportError "connection refused"))) = true /\
  GetKey RawURLEncoding_DecodeString
    (laterEnv (TransportError "connection refused")) "k1" cachedFetcher
  = (inl (NewValidationError ErrJWKSFetch (RText "connection refused")),
     cachedFetcher,
     [EvNewRequest DefaultJWKSURL; EvDo DefaultJWKSURL]) /\
  (GetKey RawURLEncoding_DecodeString
     (laterEnv (TransportError "connection refused")) "k1" cachedFetcher).1.1
  <> inr testKey.
Proof.
  split; [reflexivity|]. split; [|split; [reflexivity|split; [reflexivity|]]].
  - unfold fresh. vm_compute. discriminate.
  - vm_compute. discriminate.
Qed.

(** A stale cache and a 503 from the endpoint. *)
Lemma refresh_failure_keeps_cache_witness :
  exists e log,
    GetKey RawURLEncoding_DecodeString
      (laterEnv (Response 503 (inl ""))) "k1" cachedFetcher
    = (inl e, cachedFetcher, log) /\ errors_Is e ErrJWKSFetch.
Proof.
  destruct (refresh_failure_keeps_cache RawURLEncoding_DecodeString
              (laterEnv (Response 503 (inl ""))) cachedFetcher eq_refl)
    as (_ & _ & Hmiss).
  apply Hmiss. right. unfold fresh. vm_compute. discriminate.
Defined.

(** The token of the "wrong signing method" test. *)
Lemma Keyfunc_rejects_non_RSA_witness :
  exists e,
    Keyfunc RawURLEncoding_DecodeString (soonEnv (TransportError "connection refused"))
      cachedFetcher hmacToken
    = (inl e, cachedFetcher, []) /\ errors_Is e ErrInvalidSignature.
Proof.
  exact (proj1 (Keyfunc_rejects_non_RSA RawURLEncoding_DecodeString
                  (soonEnv (TransportError "connection refused")) cachedFetcher hmacToken eq_refl)).
Defined.

(** A key set with a usual key and a degenerate one. *)
Lemma refresh_cache_contents_witness :
  exists f',
    refresh RawURLEncoding_DecodeString
      (laterEnv (Response 200 (inr (JWKS.mk [testJWK "k1"; degenerateJWK "k0"]))))
      cachedFetcher
    = (None, f', [EvNewRequest DefaultJWKSURL; EvDo DefaultJWKSURL]) /\
    JWKSFetcher.cache f' !! "k0" = Some (PublicKey.mk 0 0) /\
    JWKSFetcher.cache f' !! "k1" = Some testKey.
Proof.
  destruct (refresh_cache_contents RawURLEncoding_DecodeString
              (laterEnv (Response 200 (inr (JWKS.mk [testJWK "k1"; degenerateJWK "k0"]))))
              cachedFetcher _ eq_refl)
    as (f' & Hrefresh & _ & Hchar & Hdegenerate).
  exists f'. split; [exact Hrefresh|]. split.
  - apply (Hdegenerate eq_refl [testJWK "k1"] (degenerateJWK "k0")); reflexivity.
  - apply Hchar. exists [], (testJWK "k1"), [degenerateJWK "k0"].
    split; [reflexivity|]. split; [reflexivity|]. split.
    + split; [reflexivity|].
      exists (list_ascii_of_string (String "001" (String "000" (String "001" EmptyString)))),
             (list_ascii_of_string (String "001" (String "000" (String "001" EmptyString)))).
      split; [vm_compute; reflexivity|]. split; [vm_compute; reflexivity|].
      vm_compute. reflexivity.
    + intros later [<-|[]] Hkid. discriminate Hkid.
Defined.

(** The cache of [cachedFetcher], two hours old, is refreshed. *)
Lemma GetKey_refreshes_stale_cache_witness :
  exists res f',
    GetKey RawURLEncoding_DecodeString
      (laterEnv (Response 200 (inr (JWKS.mk [testJWK "k1"])))) "k1" cachedFetcher
    = (res, f', [EvNewRequest DefaultJWKSURL; EvDo DefaultJWKSURL]) /\
    JWKSFetcher.cachedAt f' = 2 * Hour + 1.
Proof.
  apply (GetKey_refreshes_stale_cache RawURLEncoding_DecodeString
           (laterEnv (Response 200 (inr (JWKS.mk [testJWK "k1"])))) "k1"
           cachedFetcher (JWKS.mk [testJWK "k1"])).
  - unfold fresh. vm_compute. discriminate.
  - reflexivity.
Defined.

(** [TestNewJWKSFetcher]: the defaults, and custom values kept; a new
    fetcher has an empty cache, so its first call is a miss. *)
Example NewJWKSFetcher_defaults :
  NewJWKSFetcher "" 0
  = JWKSFetcher.mk DefaultJWKSURL DefaultCacheDuration ∅ 0 /\
  NewJWKSFetcher "https://example.com/jwks" (30 * 60 * 1000000000)
  = JWKSFetcher.mk "https://example.com/jwks" (30 * 60 * 1000000000) ∅ 0 /\
  (GetKey RawURLEncoding_DecodeString
     (soonEnv (Response 200 (inr (JWKS.mk [testJWK "k1"])))) "k1"
     (NewJWKSFetcher "" 0)).1.1 = inr testKey.
Proof. vm_compute. repeat split. Qed.

(** ** More on the pattern matcher *)

Section MatcherPatterns.

Import Matcher.

(** A literal prefix of the pattern is consumed byte for byte. *)
Lemma matchInternal_literal_prefix lit : star ∉ lit -> forall p v,
  matchInternal (lit ++ p) v = true <->
  exists t, v = lit ++ t /\ matchInternal p t = true.
Proof.
  induction lit as [|c lit IH]; intros Hlit p v.
  - simpl. split; [eauto|]. intros (t & -> & H). exact H.
  - apply not_elem_of_cons in Hlit as [Hc Hlit].
    cbn [app]. rewrite matchInternal_lit by congruence.
    destruct v as [|v0 v1].
    + split; [discriminate|]. intros (t & Ht & _). discriminate.
    + destruct (Ascii.eqb_spec c v0) as [->|Hne].
      * rewrite (IH Hlit). split.
        -- intros (t & -> & H). eauto.
        -- intros (t & Ht & H). injection Ht as ->. eauto.
      * split; [discriminate|]. intros (t & Ht & _). congruence.
Qed.

Lemma matchInternal_star_only v : matchInternal [star] v = true <-> slash ∉ v.
Proof.
  rewrite matchInternal_star by reflexivity. split.
  - intros (s & t & -> & Hs & Ht). apply matchInternal_nil in Ht. subst t.
    rewrite app_nil_r. exact Hs.
  - intros Hv. exists v, []. rewrite app_nil_r. auto.
Qed.

(** The loop of the [**] case visits every suffix of the value. *)
Lemma anyFrom_suffix f v :
  anyFrom f (S (length v)) v = true <-> exists s t, v = s ++ t /\ f t = true.
Proof.
  rewrite anyFrom_true. split.
  - intros (i & _ & _ & Hf). exists (take i v), (drop i v).
    rewrite take_drop. auto.
  - intros (s & t & -> & Hf). exists (length s).
    rewrite length_app, drop_app_length. repeat split; [lia|lia|exact Hf].
Qed.

Lemma bytes_of_string_inj (a b : string) :
  list_ascii_of_string a = list_ascii_of_string b -> a = b.
Proof.
  intros H. rewrite <- (string_of_list_ascii_of_string a), H.
  apply string_of_list_ascii_of_string.
Qed.

(** Splitting a value on the byte level and on the string level. *)
Lemma string_split_iff (v : string) (P : bytes -> bytes -> Prop) :
  (exists s t : bytes, list_ascii_of_string v = s ++ t /\ P s t) <->
  (exists s t : string,
      v = s +:+ t /\ P (list_ascii_of_string s) (list_ascii_of_string t)).
Proof.
  split.
  - intros (s & t & Hv & HP).
    exists (string_of_list_ascii s), (string_of_list_ascii t).
    rewrite !list_ascii_of_string_of_list_ascii.
    split; [apply string_app_of_bytes; exact Hv|exact HP].
  - intros (s & t & -> & HP).
    exists (list_ascii_of_string s), (list_ascii_of_string t).
    rewrite list_ascii_of_string_app. auto.
Qed.

(** X5: a pattern that starts with a literal (a string without the byte
    '*') matches a value iff the value starts with that literal and the
    rest of the pattern matches the rest of the value. *)
Theorem Match_literal_prefix (lit p v : string) :
  ~ In "*"%char (list_ascii_of_string lit) ->
  (Match (lit +:+ p) v = true <->
   exists t : string, v = lit +:+ t /\ Match p t = true).
Proof.
  intros Hlit. unfold Match. rewrite list_ascii_of_string_app.
  rewrite matchInternal_literal_prefix by (rewrite list_elem_of_In; exact Hlit).
  split.
  - intros (t & Hv & Hm). exists (string_of_list_ascii t).
    rewrite list_ascii_of_string_of_list_ascii. split; [|exact Hm].
    apply bytes_of_string_inj.
    rewrite list_ascii_of_string_app, list_ascii_of_string_of_list_ascii. exact Hv.
  - intros (t & -> & Hm). exists (list_ascii_of_string t).
    rewrite list_ascii_of_string_app. auto.
Qed.

Lemma Match_literal_prefix_witness :
  Match ("refs/heads/" +:+ "*") "refs/heads/main" = true.
Proof.
  apply (Match_literal_prefix "refs/heads/" "*" "refs/heads/main").
  - vm_compute. intuition discriminate.
  - exists "main". split; reflexivity.
Defined.

(** X6: for a literal [lit] (no '*' in it), the pattern [lit] followed by
    one '*' matches exactly the values [lit] followed by a string without
    '/', and [lit] followed by "**" matches exactly the values that start
    with [lit]. *)
Theorem Match_prefix_patterns (lit v : string) :
  ~ In "*"%char (list_ascii_of_string lit) ->
  (Match (lit +:+ "*") v = true <->
   exists s : string, v = lit +:+ s /\ ~ In "/"%char (list_ascii_of_string s)) /\
  (Match (lit +:+ "**") v = true <-> exists s : string, v = lit +:+ s).
Proof.
  intros Hlit. unfold Match. rewrite !list_ascii_of_string_app.
  rewrite !matchInternal_literal_prefix by (rewrite list_elem_of_In; exact Hlit).
  split; split.
  - intros (t & Hv & Hm). exists (string_of_list_ascii t).
    rewrite list_ascii_of_string_of_list_ascii. split.
    + apply bytes_of_string_inj.
      rewrite list_ascii_of_string_app, list_ascii_of_string_of_list_ascii. exact Hv.
    + rewrite <- list_elem_of_In. apply matchInternal_star_only. exact Hm.
  - intros (s & -> & Hs). exists (list_ascii_of_string s).
    rewrite list_ascii_of_string_app. split; [reflexivity|].
    apply matchInternal_star_only. rewrite list_elem_of_In. exact Hs.
  - intros (t & Hv & _). exists (string_of_list_ascii t).
    apply bytes_of_string_inj.
    rewrite list_ascii_of_string_app, list_ascii_of_string_of_list_ascii. exact Hv.
  - intros (s & ->). exists (list_ascii_of_string s).
    rewrite list_ascii_of_string_app. split; [reflexivity|].
    apply matchInternal_dstar_end.
Qed.

Lemma Match_prefix_patterns_witness :
  Match ("myorg/" +:+ "*") "myorg/myrepo" = true /\
  Match ("myorg/" +:+ "*") "myorg/myrepo/extra" <> true /\
  Match ("myorg/" +:+ "**") "myorg/myrepo/extra" = true.
Proof.
  assert (Hlit : ~ In "*"%char (list_ascii_of_string "myorg/"))
    by (vm_compute; intuition discriminate).
  split; [|split].
  - apply (proj1 (Match_prefix_patterns "myorg/" "myorg/myrepo" Hlit)).
    exists "myrepo". split; [reflexivity|]. vm_compute. intuition discriminate.
  - intros H.
    apply (proj1 (Match_prefix_patterns "myorg/" "myorg/myrepo/extra" Hlit)) in H.
    destruct H as (s & Hv & Hs). apply Hs.
    apply (f_equal list_ascii_of_string) in Hv.
    rewrite list_ascii_of_string_app in Hv. simpl in Hv.
    injection Hv as Hv. rewrite <- Hv. vm_compute. intuition.
  - apply (proj2 (Match_prefix_patterns "myorg/" "myorg/myrepo/extra" Hlit)).
    exists "myrepo/extra". reflexivity.
Defined.

(** X7: the pattern "**/" followed by [p] matches a value iff [p] matches
    some suffix of the value, and so does "**" followed by a pattern that
    starts with a byte other than '/'.  The suffix need not start at a path
    segment: "**/file.txt" matches "myfile.txt", and "a/**/b" matches
    "a/xb". *)
Theorem Match_double_star_suffix :
  (forall p v : string,
      Match ("**/" +:+ p) v = true <->
      exists s t : string, v = s +:+ t /\ Match p t = true) /\
  (forall (c : ascii) (p v : string),
      c <> "/"%char ->
      (Match ("**" +:+ String c p) v = true <->
       exists s t : string, v = s +:+ t /\ Match (String c p) t = true)) /\
  Match "**/file.txt" "myfile.txt" = true /\
  Match "a/**/b" "a/xb" = true.
Proof.
  split; [|split; [|split; reflexivity]].
  - intros p v. unfold Match.
    rewrite <- (string_split_iff v (fun _ t => matchInternal (list_ascii_of_string p) t = true)).
    rewrite list_ascii_of_string_app.
    change (list_ascii_of_string "**/" ++ list_ascii_of_string p)
      with (star :: star :: slash :: list_ascii_of_string p).
    rewrite matchInternal_cons.
    change (hasDoubleStar (star :: star :: slash :: list_ascii_of_string p)) with true.
    cbv iota. change (Ascii.eqb slash slash) with true. cbv iota.
    apply anyFrom_suffix.
  - intros c p v Hc. unfold Match.
    rewrite <- (string_split_iff v
                  (fun _ t => matchInternal (list_ascii_of_string (String c p)) t = true)).
    rewrite list_ascii_of_string_app.
    change (list_ascii_of_string "**" ++ list_ascii_of_string (String c p))
      with (star :: star :: c :: list_ascii_of_string p).
    rewrite matchInternal_cons.
    change (hasDoubleStar (star :: star :: c :: list_ascii_of_string p)) with true.
    cbv iota.
    destruct (Ascii.eqb_spec c slash) as [->|_]; [contradiction|].
    apply anyFrom_suffix.
Qed.

Lemma Match_double_star_suffix_witness :
  Match ("**" +:+ String "."%char "yml") "workflows/ci.yml" = true.
Proof.
  apply (proj1 (proj2 Match_double_star_suffix) "."%char "yml" "workflows/ci.yml").
  - discriminate.
  - exists "workflows/ci", ".yml". split; reflexivity.
Defined.

End MatcherPatterns.

(** ** More on the policy engine *)

Section PolicyDecisions.

Import Matcher Policy.

(** X8: [MatchAny] is true iff some pattern of the list matches the
    value; over two lists in a row it is the disjunction of the two. *)
Theorem MatchAny_some_pattern :
  (forall patterns value,
      MatchAny patterns value = true <->
      exists pattern, In pattern patterns /\ Match pattern value = true) /\
  (forall patterns patterns' value,
      MatchAny (patterns ++ patterns') value
      = MatchAny patterns value || MatchAny patterns' value).
Proof.
  split; [exact MatchAny_true|].
  intros patterns patterns' value.
  induction patterns as [|p ps IH]; simpl; [reflexivity|].
  destruct (Match p value); [reflexivity|exact IH].
Qed.

(** The loop of [Evaluate] over two lists of rules in a row. *)
Lemma evaluateRules_app rules rules' claims :
  evaluateRules (rules ++ rules') claims =
  match evaluateRules rules claims with
  | Some r => Some r
  | None => evaluateRules rules' claims
  end.
Proof.
  induction rules as [|rule rules IH]; simpl; [reflexivity|].
  destruct (matchesRule rule claims); [reflexivity|exact IH].
Qed.

(** The loop returns a result iff some rule matches, and then there is a
    first one. *)
Lemma evaluateRules_some rules claims r :
  evaluateRules rules claims = Some r ->
  exists rule, firstMatch rules claims rule.
Proof.
  induction rules as [|rule rules IH]; simpl; [discriminate|].
  destruct (matchesRule rule claims) eqn:Hm.
  - intros _. exists rule, [], rules. repeat split; [intros r' []|exact Hm].
  - intros H. destruct (IH H) as (rule' & pre & post & -> & Hpre & Hm').
    exists rule', (rule :: pre), post. repeat split; [|exact Hm'].
    intros r' [<-|Hr']; auto.
Qed.

Lemma firstMatch_result rules claims rule :
  firstMatch rules claims rule ->
  evaluateRules rules claims =
  Some (EvaluationResult.mk
          (String.eqb (Rule.Effect rule) EffectAllow)
          (Rule.Name rule)
          (if negb (String.eqb (Rule.Name rule) "")
           then String.append "rule: " (Rule.Name rule) else "default")).
Proof.
  intros (pre & post & -> & Hpre & Hm). apply evaluateRules_first; assumption.
Qed.

(** Either some rule is the first to match, or none matches. *)
Lemma firstMatch_or_noMatch rules claims :
  (exists rule, firstMatch rules claims rule) \/ noMatch rules claims.
Proof.
  destruct (evaluateRules rules claims) as [r|] eqn:He.
  - left. eapply evaluateRules_some. exact He.
  - right. unfold noMatch. apply evaluateRules_none. exact He.
Qed.

(** X9: when some rule of [rules] matches the claims, rules appended
    after [rules] do not change the result of [Evaluate]; when no rule of
    [rules] matches, the result is that of the policy without them. *)
Theorem Evaluate_rules_compose rules rules' defaultDeny claims :
  ((exists rule, In rule rules /\ matchesRule rule claims = true) ->
   Evaluate (Some (Policy.mk (rules ++ rules') defaultDeny)) claims
   = Evaluate (Some (Policy.mk rules defaultDeny)) claims) /\
  (noMatch rules claims ->
   Evaluate (Some (Policy.mk (rules ++ rules') defaultDeny)) claims
   = Evaluate (Some (Policy.mk rules' defaultDeny)) claims).
Proof.
  unfold Evaluate. simpl. rewrite evaluateRules_app. split.
  - intros (rule & Hin & Hm).
    destruct (evaluateRules rules claims) as [r|] eqn:He; [reflexivity|].
    rewrite evaluateRules_none in He. rewrite (He rule Hin) in Hm. discriminate.
  - intros Hnone. unfold noMatch in Hnone.
    apply evaluateRules_none in Hnone. rewrite Hnone. reflexivity.
Qed.

Lemma Evaluate_rules_compose_witness :
  Evaluate (Some (Policy.mk
                    ([ownerRule "deny-all" ["myorg"] EffectDeny]
                       ++ [repositoryRule "allow-myrepo" ["myorg/myrepo"] EffectAllow])
                    true)) baseClaims
  = Evaluate (Some (Policy.mk [ownerRule "deny-all" ["myorg"] EffectDeny] true))
             baseClaims.
Proof.
  apply (proj1 (Evaluate_rules_compose
                  [ownerRule "deny-all" ["myorg"] EffectDeny]
                  [repositoryRule "allow-myrepo" ["myorg/myrepo"] EffectAllow]
                  true baseClaims)).
  exists (ownerRule "deny-all" ["myorg"] EffectDeny).
  split; [left; reflexivity|vm_compute; reflexivity].
Defined.

(** In a policy that validates, every rule has a valid effect. *)
Lemma Validate_rules p :
  Validate (Some p) = None ->
  forall r, In r (Rules p) ->
            validEffect (Rule.Effect r) /\ hasActiveCondition (Rule.Conditions r).
Proof.
  simpl. destruct (len_zero (Rules p)); [discriminate|].
  intros H. apply (validateRules_none (Rules p) 0). exact H.
Qed.

Lemma firstMatch_In rules claims rule : firstMatch rules claims rule -> In rule rules.
Proof.
  intros (pre & post & -> & _). apply in_or_app. right. left. reflexivity.
Qed.

(** The decision of a policy that validates. *)
Lemma validated_decision p claims :
  Validate (Some p) = None ->
  (EvaluationResult.Allowed (Evaluate (Some p) claims) = false <->
   (exists rule, firstMatch (Rules p) claims rule /\ Rule.Effect rule = "deny") \/
   (noMatch (Rules p) claims /\ DefaultDeny p = true)).
Proof.
  intros Hvalid. unfold Evaluate.
  destruct (firstMatch_or_noMatch (Rules p) claims) as [(rule & Hfirst)|Hnone].
  - rewrite (firstMatch_result _ _ _ Hfirst). simpl.
    destruct (Validate_rules p Hvalid rule (firstMatch_In _ _ _ Hfirst)) as [Heff _].
    assert (Hnot : ~ noMatch (Rules p) claims).
    { intros Hn. destruct Hfirst as (pre & post & Hr & _ & Hm).
      rewrite (Hn rule) in Hm; [discriminate|].
      rewrite Hr. apply in_or_app. right. left. reflexivity. }
    split.
    + intros Hd. left. exists rule. split; [exact Hfirst|].
      destruct Heff as [Ha|Hdeny]; [|exact Hdeny].
      rewrite Ha in Hd. discriminate.
    + intros [(rule' & Hfirst' & Hdeny)|[Hn _]]; [|contradiction].
      pose proof (firstMatch_result _ _ _ Hfirst) as H1.
      pose proof (firstMatch_result _ _ _ Hfirst') as H2.
      rewrite H1 in H2. injection H2 as Hallow _ _.
      rewrite Hallow, Hdeny. reflexivity.
  - pose proof Hnone as Hn. unfold noMatch in Hn.
    apply evaluateRules_none in Hn. rewrite Hn.
    split.
    + intros Hd. right. split; [exact Hnone|].
      destruct (DefaultDeny p); [reflexivity|discriminate].
    + intros [(rule & Hfirst & _)|[_ ->]]; [|reflexivity].
      rewrite (firstMatch_result _ _ _ Hfirst) in Hn. discriminate.
Qed.

(** The same for an allowing decision. *)
Lemma validated_decision_allow p claims :
  EvaluationResult.Allowed (Evaluate (Some p) claims) = true <->
  (exists rule, firstMatch (Rules p) claims rule /\ Rule.Effect rule = "allow") \/
  (noMatch (Rules p) claims /\ DefaultDeny p = false).
Proof.
  unfold Evaluate.
  destruct (firstMatch_or_noMatch (Rules p) claims) as [(rule & Hfirst)|Hnone].
  - rewrite (firstMatch_result _ _ _ Hfirst). simpl.
    assert (Hnot : ~ noMatch (Rules p) claims).
    { intros Hn. destruct Hfirst as (pre & post & Hr & _ & Hm).
      rewrite (Hn rule) in Hm; [discriminate|].
      rewrite Hr. apply in_or_app. right. left. reflexivity. }
    unfold EffectAllow. split.
    + intros Ha. left. exists rule. split; [exact Hfirst|].
      apply String.eqb_eq. exact Ha.
    + intros [(rule' & Hfirst' & Hallow)|[Hn _]]; [|contradiction].
      pose proof (firstMatch_result _ _ _ Hfirst) as H1.
      pose proof (firstMatch_result _ _ _ Hfirst') as H2.
      rewrite H1 in H2. injection H2 as Ha _ _.
      unfold EffectAllow in Ha. rewrite Ha, Hallow. reflexivity.
  - pose proof Hnone as Hn. unfold noMatch in Hn.
    apply evaluateRules_none in Hn. rewrite Hn.
    split.
    + intros Ha. right. split; [exact Hnone|].
      destruct (DefaultDeny p); [discriminate|reflexivity].
    + intros [(rule & Hfirst & _)|[_ ->]]; [|reflexivity].
      rewrite (firstMatch_result _ _ _ Hfirst) in Hn. discriminate.
Qed.


(** X10: for a policy that [Validate] accepts, [Evaluate] denies iff the
    first rule that matches has effect "deny", or no rule matches and
    [DefaultDeny] is set; it allows iff the first rule that matches has
    effect "allow", or no rule matches and [DefaultDeny] is not set. *)
Theorem Evaluate_validated_policy p claims :
  Validate (Some p) = None ->
  (EvaluationResult.Allowed (Evaluate (Some p) claims) = false <->
   (exists rule, firstMatch (Rules p) claims rule /\ Rule.Effect rule = "deny") \/
   (noMatch (Rules p) claims /\ DefaultDeny p = true)) /\
  (EvaluationResult.Allowed (Evaluate (Some p) claims) = true <->
   (exists rule, firstMatch (Rules p) claims rule /\ Rule.Effect rule = "allow") \/
   (noMatch (Rules p) claims /\ DefaultDeny p = false)).
Proof.
  intros Hvalid. split; [apply validated_decision; exact Hvalid|].
  apply validated_decision_allow.
Qed.

Lemma Evaluate_validated_policy_witness :
  EvaluationResult.Allowed
    (Evaluate (Some (Policy.mk [ownerRule "deny-all" ["myorg"] EffectDeny] false))
              baseClaims) = false.
Proof.
  apply (proj1 (Evaluate_validated_policy
                  (Policy.mk [ownerRule "deny-all" ["myorg"] EffectDeny] false)
                  baseClaims eq_refl)).
  left. exists (ownerRule "deny-all" ["myorg"] EffectDeny). split; [|reflexivity].
  exists [], []. split; [reflexivity|].
  split; [intros r []|vm_compute; reflexivity].
Defined.

End PolicyDecisions.

(** ** More on policy validation and evaluation *)

Section PolicyEdges.

Import Matcher Policy.

(** The loop of [Validate] passes over rules that are in order, counting
    them. *)
Lemma validateRules_app pre : forall i rest,
  (forall r, In r pre ->
             validEffect (Rule.Effect r) /\ hasActiveCondition (Rule.Conditions r)) ->
  validateRules i (pre ++ rest) = validateRules (i + Z.of_nat (length pre)) rest.
Proof.
  induction pre as [|r pre IH]; intros i rest Hpre.
  - simpl. f_equal. lia.
  - destruct (Hpre r (or_introl eq_refl)) as [Heff Hact].
    apply effect_check in Heff.
    cbn [app validateRules length]. rewrite Heff.
    destruct (noConditions (Rule.Conditions r)) eqn:Hc;
      [apply noConditions_true in Hc; contradiction|].
    rewrite IH by (intros r' Hr'; apply Hpre; right; exact Hr').
    f_equal. lia.
Qed.

Lemma string_of_rune_index (n : nat) :
  (n < 128)%nat ->
  string_of_rune (rune_of_int (Z.of_nat n)) = String (ascii_of_nat n) "".
Proof.
  intros Hn. unfold rune_of_int.
  rewrite Z.mod_small by lia.
  destruct (Z.ltb_spec (Z.of_nat n) (2 ^ 31)); [|lia].
  unfold string_of_rune.
  destruct (Z.ltb_spec (Z.of_nat n) 0); [lia|].
  destruct (Z.ltb_spec (Z.of_nat n) 128); [|lia].
  simpl. unfold byte_of_Z. rewrite Z.mod_small by lia.
  unfold ascii_of_nat. f_equal. f_equal. lia.
Qed.

(** X11: [Validate] reports the first rule that is out of order, the
    rules before it being in order: a rule whose effect is neither "allow"
    nor "deny" gives the effect error under the rule's name; a rule with a
    valid effect and no condition gives the condition error, under the
    rule's name or, for an unnamed rule at an index below 128, under the
    one-byte string whose byte is that index. *)
Theorem Validate_reports_first_offender p pre rule post :
  Rules p = pre ++ rule :: post ->
  (forall r, In r pre ->
             validEffect (Rule.Effect r) /\ hasActiveCondition (Rule.Conditions r)) ->
  (~ validEffect (Rule.Effect rule) ->
   Validate (Some p)
   = Some (NewPolicyError (Rule.Name rule) "effect must be 'allow' or 'deny'")) /\
  (validEffect (Rule.Effect rule) ->
   ~ hasActiveCondition (Rule.Conditions rule) ->
   (Rule.Name rule <> "" ->
    Validate (Some p)
    = Some (NewPolicyError (Rule.Name rule) "rule must have at least one condition")) /\
   (Rule.Name rule = "" -> (length pre < 128)%nat ->
    Validate (Some p)
    = Some (NewPolicyError (String (ascii_of_nat (length pre)) "")
              "rule must have at least one condition"))).
Proof.
  intros Hrules Hpre. unfold Validate. rewrite Hrules.
  destruct (len_zero (pre ++ rule :: post)) eqn:Hz.
  { apply len_zero_true in Hz. destruct pre; discriminate. }
  rewrite (validateRules_app pre 0 (rule :: post) Hpre). cbn [validateRules].
  split.
  - intros Hbad.
    destruct (negb (String.eqb (Rule.Effect rule) EffectAllow)
              && negb (String.eqb (Rule.Effect rule) EffectDeny)) eqn:He;
      [reflexivity|].
    apply effect_check in He. contradiction.
  - intros Heff Hnone. apply effect_check in Heff. rewrite Heff.
    apply noConditions_true in Hnone. rewrite Hnone.
    split.
    + intros Hname.
      destruct (String.eqb_spec (Rule.Name rule) ""); [contradiction|reflexivity].
    + intros Hname Hlen. rewrite Hname. simpl String.eqb. cbv iota.
      rewrite Z.add_0_l, string_of_rune_index by exact Hlen. reflexivity.
Qed.

Lemma Validate_reports_first_offender_witness :
  Validate (Some (Policy.mk [repositoryRule "r0" ["a"] EffectAllow;
                             Rule.mk "" noCond EffectDeny] true))
  = Some (NewPolicyError (String (ascii_of_nat 1) "")
            "rule must have at least one condition").
Proof.
  refine (proj2 (proj2 (Validate_reports_first_offender
                   (Policy.mk [repositoryRule "r0" ["a"] EffectAllow;
                               Rule.mk "" noCond EffectDeny] true)
                   [repositoryRule "r0" ["a"] EffectAllow]
                   (Rule.mk "" noCond EffectDeny) [] eq_refl _) _ _) eq_refl _).
  - intros r [<-|[]]. split; [left; reflexivity|left; discriminate].
  - right. reflexivity.
  - unfold hasActiveCondition. simpl. intuition congruence.
  - simpl. lia.
Defined.

Lemma matchesRule_same_attributes rule c c' :
  sameConditionAttributes c c' -> matchesRule rule c = matchesRule rule c'.
Proof.
  intros (H1&H2&H3&H4&H5&H6&H7&H8&H9). unfold matchesRule.
  rewrite H1, H2, H3, H4, H5, H6, H7, H8, H9. reflexivity.
Qed.

(** X12: [Evaluate] reads nine attributes of the claims only
    (repository, owner, visibility, ref, ref type, workflow, event name,
    actor, environment): two claim sets that agree on them get the same
    result from every policy. *)
Theorem Evaluate_reads_condition_attributes p c c' :
  sameConditionAttributes c c' -> Evaluate p c = Evaluate p c'.
Proof.
  intros Hsame. destruct p as [p|]; [|reflexivity].
  unfold Evaluate.
  assert (He : evaluateRules (Rules p) c = evaluateRules (Rules p) c').
  { induction (Rules p) as [|rule rules IH]; simpl; [reflexivity|].
    rewrite (matchesRule_same_attributes rule c c' Hsame), IH. reflexivity. }
  rewrite He. reflexivity.
Qed.

Lemma Evaluate_reads_condition_attributes_witness :
  Evaluate (Some (Policy.mk [ownerRule "allow-org" ["myorg"] EffectAllow] true))
           baseClaims
  = Evaluate (Some (Policy.mk [ownerRule "allow-org" ["myorg"] EffectAllow] true))
      (GitHubActionsClaims.mk "https://elsewhere.example.com" ["other"]
         "myorg/myrepo" "myorg" "1" "private" "2" "refs/heads/main" "branch" "abc"
         "CI" "w" "x" "y" "z" "push" "3" "4" "5" "self-hosted" "johndoe" "6" "janedoe"
         "" "7" "ent").
Proof.
  apply Evaluate_reads_condition_attributes. repeat split.
Defined.

(** X13: [Evaluate] does not validate the policy: a rule without any
    condition matches every claim set, so a policy that starts with such a
    rule decides every request by that rule, whatever follows it. *)
Theorem conditionless_rule_matches_all rule :
  ~ hasActiveCondition (Rule.Conditions rule) ->
  (forall claims, matchesRule rule claims = true) /\
  (forall post defaultDeny claims,
      Evaluate (Some (Policy.mk (rule :: post) defaultDeny)) claims
      = EvaluationResult.mk
          (String.eqb (Rule.Effect rule) EffectAllow)
          (Rule.Name rule)
          (if negb (String.eqb (Rule.Name rule) "")
           then String.append "rule: " (Rule.Name rule) else "default")).
Proof.
  intros Hnone.
  assert (Hall : forall claims, matchesRule rule claims = true).
  { intros claims. apply matchesRule_iff.
    apply noConditions_true in Hnone. unfold noConditions in Hnone.
    rewrite !andb_true_iff, !len_zero_true in Hnone.
    destruct Hnone as [[[[[[[[H1 H2] H3] H4] H5] H6] H7] H8] H9].
    unfold conditionHolds. repeat split; left; assumption. }
  split; [exact Hall|].
  intros post defaultDeny claims. unfold Evaluate. simpl. rewrite Hall. reflexivity.
Qed.

Lemma conditionless_rule_matches_all_witness :
  Evaluate (Some (Policy.mk [Rule.mk "catch-all" noCond EffectDeny;
                             repositoryRule "allow-myrepo" ["myorg/myrepo"] EffectAllow]
                            false)) baseClaims
  = EvaluationResult.mk false "catch-all" "rule: catch-all".
Proof.
  apply (proj2 (conditionless_rule_matches_all (Rule.mk "catch-all" noCond EffectDeny)
                  ltac:(unfold hasActiveCondition; simpl; intuition congruence))
           [repositoryRule "allow-myrepo" ["myorg/myrepo"] EffectAllow] false baseClaims).
Defined.

End PolicyEdges.

(** ** The verifier *)

Section VerifierFacts.

Import Policy.

Lemma audienceListed_In aud audience :
  audienceListed aud audience = true <-> In audience aud.
Proof.
  induction aud as [|a aud IH]; simpl.
  - split; [discriminate|tauto].
  - destruct (String.eqb_spec a audience) as [->|Hne].
    + split; auto.
    + rewrite IH. split; [auto|]. intros [Heq|Hin]; [contradiction|exact Hin].
Qed.

(** The audience test of [Verify] fails iff the audience is not accepted. *)
Lemma audience_check v claims :
  negb (String.eqb (Verifier.audience v) "")
  && negb (audienceListed (GitHubActionsClaims.Audience claims) (Verifier.audience v))
  = false <-> audienceAccepted v claims.
Proof.
  unfold audienceAccepted. rewrite <- audienceListed_In.
  destruct (String.eqb_spec (Verifier.audience v) "") as [He|He]; simpl.
  - split; auto.
  - destruct (audienceListed _ _); simpl; split; auto.
    intros [H|H]; [contradiction|discriminate].
Qed.

Lemma parseToken_inr parsed claims :
  parseToken parsed = inr claims <-> parsed = ParseOK true claims.
Proof.
  destruct parsed as [isExpired isNotValidYet text|Valid c]; simpl.
  - destruct isExpired, isNotValidYet; split; discriminate.
  - destruct Valid; simpl; split; intros H; try discriminate; congruence.
Qed.

(** An error of [GitHubActionsClaims.Validate] is about the issuer, when it
    is not GitHub's, or else about the token. *)
Lemma Claims_Validate_error c e :
  GitHubActionsClaims.Validate c = Some e ->
  (GitHubActionsClaims.Issuer c <> "https://token.actions.githubusercontent.com" /\
   ValidationError.Err e = ErrInvalidIssuer) \/
  (GitHubActionsClaims.Issuer c = "https://token.actions.githubusercontent.com" /\
   ValidationError.Err e = ErrInvalidToken).
Proof.
  unfold GitHubActionsClaims.Validate.
  destruct (String.eqb_spec (GitHubActionsClaims.Issuer c)
              "https://token.actions.githubusercontent.com") as [Hi|Hi]; simpl.
  - intros H. right. split; [exact Hi|].
    repeat match type of H with
           | (if ?b then _ else _) = _ => destruct b
           end; try discriminate; injection H as <-; reflexivity.
  - intros H. left. split; [exact Hi|]. injection H as <-. reflexivity.
Qed.

(** What a successful [Verify] has checked. *)
Lemma Verify_inr v parsed result :
  Verify v parsed = inr result ->
  exists claims,
    parsed = ParseOK true claims /\
    GitHubActionsClaims.Validate claims = None /\
    audienceAccepted v claims /\
    EvaluationResult.Allowed (Evaluate (Verifier.policy v) claims) = true /\
    result = VerificationResult.mk claims (Evaluate (Verifier.policy v) claims).
Proof.
  unfold Verify.
  destruct (parseToken parsed) as [err|claims] eqn:Hp; [discriminate|].
  apply parseToken_inr in Hp.
  destruct (GitHubActionsClaims.Validate claims) eqn:Hv; [discriminate|].
  destruct (negb (String.eqb (Verifier.audience v) "") && _) eqn:Ha; [discriminate|].
  apply audience_check in Ha. cbv zeta.
  destruct (EvaluationResult.Allowed (Evaluate (Verifier.policy v) claims)) eqn:Hall;
    simpl; [|discriminate].
  intros H. injection H as <-. exists claims. auto.
Qed.

(** [Verify] on a token that parsed, with claims that validate and an
    accepted audience: the policy decides. *)
Lemma Verify_policy_step v claims :
  GitHubActionsClaims.Validate claims = None -> audienceAccepted v claims ->
  Verify v (ParseOK true claims)
  = if negb (EvaluationResult.Allowed (Evaluate (Verifier.policy v) claims))
    then inl (Wrapped (NewValidationError ErrAccessDenied
                         (RText (EvaluationResult.Reason
                                   (Evaluate (Verifier.policy v) claims)))))
    else inr (VerificationResult.mk claims (Evaluate (Verifier.policy v) claims)).
Proof.
  intros Hv Ha. unfold Verify. simpl. rewrite Hv.
  apply audience_check in Ha. rewrite Ha. reflexivity.
Qed.

(** What an access-denied error of [Verify] comes from. *)
Lemma Verify_denied v parsed err :
  Verify v parsed = inl err -> verifyErrorIs err ErrAccessDenied ->
  exists claims,
    parsed = ParseOK true claims /\
    GitHubActionsClaims.Validate claims = None /\ audienceAccepted v claims /\
    EvaluationResult.Allowed (Evaluate (Verifier.policy v) claims) = false.
Proof.
  unfold Verify.
  destruct parsed as [isExpired isNotValidYet text|Valid claims]; simpl.
  - destruct isExpired; [|destruct isNotValidYet]; intros H; injection H as <-;
      discriminate.
  - destruct Valid; simpl; [|intros H; injection H as <-; discriminate].
    destruct (GitHubActionsClaims.Validate claims) as [e|] eqn:Hv.
    + intros H. injection H as <-. simpl. intros He.
      destruct (Claims_Validate_error claims e Hv) as [[_ He']|[_ He']]; congruence.
    + destruct (negb (String.eqb (Verifier.audience v) "") && _) eqn:Ha.
      * intros H. injection H as <-. discriminate.
      * apply audience_check in Ha. cbv zeta.
        destruct (EvaluationResult.Allowed (Evaluate (Verifier.policy v) claims)) eqn:Hall;
          simpl; [discriminate|].
        intros _ _. exists claims. auto.
Qed.

(** X14: [Verify] returns a result iff the token parsed and is valid,
    its claims pass [GitHubActionsClaims.Validate], the audience is
    accepted (none is configured, or the configured one is in the token's
    list) and the policy allows; the result then holds these claims and the
    policy's decision. *)
Theorem Verify_succeeds_iff v parsed result :
  Verify v parsed = inr result <->
  exists claims,
    parsed = ParseOK true claims /\
    GitHubActionsClaims.Validate claims = None /\
    audienceAccepted v claims /\
    EvaluationResult.Allowed (Evaluate (Verifier.policy v) claims) = true /\
    result = VerificationResult.mk claims (Evaluate (Verifier.policy v) claims).
Proof.
  split; [apply Verify_inr|].
  intros (claims & -> & Hv & Ha & Hall & ->).
  rewrite (Verify_policy_step v claims Hv Ha), Hall. reflexivity.
Qed.






(** What [New] returns, by the policy the options leave. *)
Lemma New_cases opts :
  let v := applyOptions opts defaultVerifier in
  match Verifier.policy v with
  | Some p =>
      match Validate (Some p) with
      | Some err => New opts = inl err
      | None =>
          New opts
          = inr (Verifier.mk (Some p) (Verifier.audience v) (Verifier.jwksURL v)
                   (Verifier.jwksCacheDuration v) (Verifier.httpClient v)
                   (Verifier.clock v)
                   (Some (NewJWKSFetcher (Verifier.jwksURL v)
                            (Verifier.jwksCacheDuration v))))
      end
  | None =>
      New opts
      = inr (Verifier.mk None (Verifier.audience v) (Verifier.jwksURL v)
               (Verifier.jwksCacheDuration v) (Verifier.httpClient v)
               (Verifier.clock v)
               (Some (NewJWKSFetcher (Verifier.jwksURL v)
                        (Verifier.jwksCacheDuration v))))
  end.
Proof.
  cbv zeta. unfold New.
  destruct (Verifier.policy (applyOptions opts defaultVerifier)) as [p|] eqn:Hp;
    [|reflexivity].
  destruct (Validate (Some p)); reflexivity.
Qed.

(** The policy of a verifier that [New] returns validates. *)
Lemma New_policy_valid opts verifier p :
  New opts = inr verifier -> Verifier.policy verifier = Some p ->
  Validate (Some p) = None.
Proof.
  intros Hnew Hp. pose proof (New_cases opts) as Hc. cbv zeta in Hc.
  destruct (Verifier.policy (applyOptions opts defaultVerifier)) as [q|].
  - destruct (Validate (Some q)) eqn:Hv; rewrite Hc in Hnew; [discriminate|].
    injection Hnew as <-. simpl in Hp. congruence.
  - rewrite Hc in Hnew. injection Hnew as <-. discriminate.
Qed.

Lemma applyOptions_app opts opts' v :
  applyOptions (opts ++ opts') v = applyOptions opts' (applyOptions opts v).
Proof.
  revert v. induction opts as [|opt opts IH]; intros v; simpl; [reflexivity|apply IH].
Qed.


(** X18: a verifier that [New] returned denies access only through its
    policy's first matching rule having effect "deny", or through the
    default when no rule matches; and it grants access only without a
    policy, through a first matching rule with effect "allow", or through
    the default when no rule matches. *)
Theorem New_verifier_decisions opts verifier parsed :
  New opts = inr verifier ->
  (forall err,
      Verify verifier parsed = inl err -> verifyErrorIs err ErrAccessDenied ->
      exists p claims,
        Verifier.policy verifier = Some p /\ parsed = ParseOK true claims /\
        ((exists rule, firstMatch (Rules p) claims rule /\ Rule.Effect rule = "deny") \/
         (noMatch (Rules p) claims /\ DefaultDeny p = true))) /\
  (forall result,
      Verify verifier parsed = inr result ->
      Verifier.policy verifier = None \/
      exists p,
        Verifier.policy verifier = Some p /\
        ((exists rule,
             firstMatch (Rules p) (VerificationResult.Claims result) rule /\
             Rule.Effect rule = "allow") \/
         (noMatch (Rules p) (VerificationResult.Claims result) /\
          DefaultDeny p = false))).
Proof.
  intros Hnew. split.
  - intros err Hverify Hdenied.
    destruct (Verify_denied verifier parsed err Hverify Hdenied)
      as (claims & -> & _ & _ & Hd).
    destruct (Verifier.policy verifier) as [p|] eqn:Hp; [|discriminate].
    exists p, claims. split; [reflexivity|]. split; [reflexivity|].
    apply validated_decision; [|exact Hd].
    exact (New_policy_valid opts verifier p Hnew Hp).
  - intros result Hverify.
    apply Verify_inr in Hverify as (claims & _ & _ & _ & Hall & ->).
    destruct (Verifier.policy verifier) as [p|]; [|left; reflexivity].
    right. exists p. split; [reflexivity|].
    apply validated_decision_allow. exact Hall.
Qed.


Lemma New_verifier_decisions_witness :
  exists p claims,
    Some (Policy.mk [ownerRule "deny-all" ["myorg"] EffectDeny] false) = Some p /\
    ParseOK true baseClaims = ParseOK true claims /\
    ((exists rule, firstMatch (Rules p) claims rule /\ Rule.Effect rule = "deny") \/
     (noMatch (Rules p) claims /\ DefaultDeny p = true)).
Proof.
  exact (proj1 (New_verifier_decisions
                  [WithPolicy (Some (Policy.mk [ownerRule "deny-all" ["myorg"] EffectDeny]
                                       false))]
                  _ (ParseOK true baseClaims) eq_refl)
           _ eq_refl eq_refl).
Defined.

(** X19: a verifier without policy and without audience accepts every
    token that parsed and whose claims validate, with the decision "no
    policy configured"; its errors are never of the access-denied or the
    invalid-audience category. *)
Theorem Verify_without_policy v parsed :
  Verifier.policy v = None -> Verifier.audience v = "" ->
  (forall result,
      Verify v parsed = inr result <->
      exists claims,
        parsed = ParseOK true claims /\
        GitHubActionsClaims.Validate claims = None /\
        result = VerificationResult.mk claims
                   (EvaluationResult.mk true "" "no policy configured")) /\
  (forall err,
      Verify v parsed = inl err ->
      ~ verifyErrorIs err ErrAccessDenied /\ ~ verifyErrorIs err ErrInvalidAudience).
Proof.
  intros Hp Ha.
  assert (Hacc : forall claims, audienceAccepted v claims) by (intros c; left; exact Ha).
  split.
  - intros result. split.
    + intros H. apply Verify_inr in H as (claims & -> & Hv & _ & _ & ->).
      exists claims. rewrite Hp. auto.
    + intros (claims & -> & Hv & ->).
      rewrite (Verify_policy_step v claims Hv (Hacc claims)), Hp. reflexivity.
  - intros err Hverify. split.
    + intros Hd.
      destruct (Verify_denied v parsed err Hverify Hd) as (claims & _ & _ & _ & Hall).
      rewrite Hp in Hall. discriminate.
    + intros Haud. revert Hverify. unfold Verify.
      destruct (parseToken parsed) as [e|claims] eqn:Hparse.
      * intros H. injection H as <-.
        destruct parsed as [isExpired isNotValidYet text|Valid c]; simpl in Hparse.
        -- destruct isExpired; [|destruct isNotValidYet]; injection Hparse as <-;
             discriminate.
        -- destruct Valid; simpl in Hparse; [discriminate|].
           injection Hparse as <-. discriminate.
      * destruct (GitHubActionsClaims.Validate claims) as [e|] eqn:Hv.
        -- intros H. injection H as <-. simpl in Haud.
           destruct (Claims_Validate_error claims e Hv) as [[_ He]|[_ He]]; congruence.
        -- pose proof (proj2 (audience_check v claims) (Hacc claims)) as Hc.
           rewrite Hc. cbv zeta. rewrite Hp. simpl. discriminate.
Qed.

Lemma Verify_without_policy_witness :
  Verify defaultVerifier (ParseOK true baseClaims)
  = inr (VerificationResult.mk baseClaims
           (EvaluationResult.mk true "" "no policy configured")).
Proof.
  apply (proj1 (Verify_without_policy defaultVerifier (ParseOK true baseClaims)
                  eq_refl eq_refl)).
  exists baseClaims. repeat split.
Defined.

End VerifierFacts.

(** ** Configuring a verifier *)

Section VerifierConfiguration.

Import Policy.

(** X26: options apply in order and the last one of a kind wins: after
    any options, the four options for endpoint, cache duration, audience
    and a valid policy give a verifier with that policy and audience, whose
    fetcher has an empty cache, the given endpoint (the default one for the
    empty string) and the given duration (the default one for zero); client
    and clock are those the earlier options left. *)
Theorem New_configuration opts u d a p :
  Validate (Some p) = None ->
  exists verifier,
    New (opts ++ [WithJWKSURL u; WithJWKSCacheDuration d; WithAudience a;
                  WithPolicy (Some p)]) = inr verifier /\
    Verifier.policy verifier = Some p /\
    Verifier.audience verifier = a /\
    Verifier.jwksFetcher verifier
    = Some (JWKSFetcher.mk (if String.eqb u "" then DefaultJWKSURL else u)
              (if d =? 0 then DefaultCacheDuration else d) ∅ 0) /\
    Verifier.httpClient verifier
    = Verifier.httpClient (applyOptions opts defaultVerifier) /\
    Verifier.clock verifier = Verifier.clock (applyOptions opts defaultVerifier).
Proof.
  intros Hvalid.
  pose proof (New_cases (opts ++ [WithJWKSURL u; WithJWKSCacheDuration d; WithAudience a;
                                  WithPolicy (Some p)])) as Hc.
  cbv zeta in Hc. rewrite applyOptions_app in Hc.
  set (v := applyOptions opts defaultVerifier) in *.
  cbn [applyOptions] in Hc. unfold WithPolicy at 1 in Hc.
  cbn [Verifier.policy] in Hc. rewrite Hvalid in Hc.
  eexists. split; [exact Hc|]. repeat split.
Qed.

Lemma New_configuration_witness :
  exists verifier,
    New ([WithAudience "first"; WithClock DefaultClock]
           ++ [WithJWKSURL ""; WithJWKSCacheDuration 0; WithAudience "https://example.com";
               WithPolicy (Some (Policy.mk [ownerRule "allow-org" ["myorg"] EffectAllow]
                                    true))])
    = inr verifier /\
    Verifier.audience verifier = "https://example.com" /\
    Verifier.jwksFetcher verifier
    = Some (JWKSFetcher.mk DefaultJWKSURL DefaultCacheDuration ∅ 0).
Proof.
  destruct (New_configuration [WithAudience "first"; WithClock DefaultClock] "" 0
              "https://example.com"
              (Policy.mk [ownerRule "allow-org" ["myorg"] EffectAllow] true) eq_refl)
    as (verifier & Hnew & _ & Ha & Hf & _).
  exists verifier. split; [exact Hnew|]. split; [exact Ha|exact Hf].
Defined.

End VerifierConfiguration.

(** ** More on the key cache *)

Section KeyCacheSequences.

Import JWKSFetcher.

Variable DecodeString : string -> option (list ascii).

(** What a refresh returns: a fetch error and the fetcher as it was, or no
    error and a fetcher with the converted key set, stamped. *)
Lemma refresh_cases env f err f' log :
  refresh DecodeString env f = (err, f', log) ->
  (exists e, err = Some e /\ errors_Is e ErrJWKSFetch /\
             fetchFails (fetch env) = true /\ f' = f) \/
  (exists jwks,
      err = None /\ fetch env = Response 200 (inr jwks) /\
      f' = JWKSFetcher.mk (url f) (cacheDuration f)
             (convertKeys DecodeString (JWKS.Keys jwks) ∅) (refreshNow env) /\
      log = [EvNewRequest (url f); EvDo (url f)]).
Proof.
  unfold refresh, fetchFails, StatusOK.
  destruct (fetch env) as [msg|msg|code body].
  - intros H. injection H as <- <- <-. left. eexists. repeat split.
  - intros H. injection H as <- <- <-. left. eexists. repeat split.
  - destruct (Z.eqb_spec code 200) as [->|Hcode]; simpl.
    + destruct body as [msg|jwks]; intros H; injection H as <- <- <-.
      * left. eexists. repeat split.
      * right. exists jwks. repeat split.
    + intros H. injection H as <- <- <-. left. eexists. repeat split.
Qed.

(** A set with no accepted entry for [kid] leaves [kid] out of the cache. *)
Lemma convertKeys_none keys kid :
  noneAccepted DecodeString kid keys ->
  convertKeys DecodeString keys ∅ !! kid = None.
Proof.
  intros Hnone.
  destruct (convertKeys DecodeString keys ∅ !! kid) as [pk|] eqn:Hk; [|reflexivity].
  apply convertKeys_lookup in Hk as [(pre & jwk & post & -> & Hkid & Hacc & _)|[Hk _]].
  - exfalso. apply (Hnone jwk) with (pk := pk); [|exact Hkid|exact Hacc].
    apply in_or_app. right. left. reflexivity.
  - rewrite lookup_empty in Hk. discriminate.
Qed.

Lemma convertKeys_none_inv keys : forall newCache kid,
  convertKeys DecodeString keys newCache !! kid = None ->
  noneAccepted DecodeString kid keys.
Proof.
  induction keys as [|jwk keys IH]; intros newCache kid Hk later Hin Hkid pk Hacc.
  - destruct Hin.
  - simpl in Hk.
    destruct (String.eqb_spec (JWK.Kty jwk) "RSA") as [Hkty|Hkty]; simpl in Hk.
    + destruct (jwkToPublicKey DecodeString jwk) as [err|key] eqn:Hconv.
      * destruct Hin as [<-|Hin]; [|exact (IH _ _ Hk later Hin Hkid pk Hacc)].
        apply (jwkToPublicKey_inr DecodeString jwk pk Hkty) in Hacc. congruence.
      * destruct Hin as [<-|Hin]; [|exact (IH _ _ Hk later Hin Hkid pk Hacc)].
        assert (Hsome : convertKeys DecodeString keys (<[JWK.Kid jwk := key]> newCache)
                        !! kid = Some key).
        { apply convertKeys_lookup. right. split.
          - rewrite Hkid. apply lookup_insert_eq.
          - exact (IH _ _ Hk). }
        congruence.
    + destruct Hin as [<-|Hin]; [|exact (IH _ _ Hk later Hin Hkid pk Hacc)].
      destruct Hacc as [Hrsa _]. contradiction.
Qed.

(** A refresh keeps the endpoint and the cache duration. *)
Lemma refresh_frame env f err f' log :
  refresh DecodeString env f = (err, f', log) ->
  url f' = url f /\ cacheDuration f' = cacheDuration f.
Proof.
  intros H. apply refresh_cases in H as [(e & _ & _ & _ & ->)|(jwks & _ & _ & -> & _)];
    split; reflexivity.
Qed.

(** X20: a key that [GetKey] returns is the one the cache holds for that
    identifier after the call; the call leaves the endpoint and the cache
    duration as they were; and a later call for that identifier, made while
    the cache age is within the duration, returns the same key without
    any network event, whatever the endpoint would answer. *)
Theorem GetKey_then_hit env kid f key f' log :
  GetKey DecodeString env kid f = (inr key, f', log) ->
  cache f' !! kid = Some key /\
  url f' = url f /\ cacheDuration f' = cacheDuration f /\
  (forall env', fresh env' f' ->
                GetKey DecodeString env' kid f' = (inr key, f', [])).
Proof.
  intros Hget.
  assert (Hmain : cache f' !! kid = Some key /\
                  url f' = url f /\ cacheDuration f' = cacheDuration f).
  { unfold GetKey in Hget.
    destruct (cache f !! kid) as [k|] eqn:Hk.
    - destruct (time_Since (sinceNow env) (cachedAt f) <? cacheDuration f).
      + injection Hget as <- <- <-. auto.
      + destruct (refresh DecodeString env f) as [[err f1] log1] eqn:Hr.
        destruct err as [e|]; [discriminate|].
        destruct (cache f1 !! kid) as [k1|] eqn:Hk1; [|discriminate].
        injection Hget as <- <- <-.
        split; [exact Hk1|]. exact (refresh_frame _ _ _ _ _ Hr).
    - destruct (refresh DecodeString env f) as [[err f1] log1] eqn:Hr.
      destruct err as [e|]; [discriminate|].
      destruct (cache f1 !! kid) as [k1|] eqn:Hk1; [|discriminate].
      injection Hget as <- <- <-.
      split; [exact Hk1|]. exact (refresh_frame _ _ _ _ _ Hr). }
  destruct Hmain as (Hk & Hu & Hd). repeat split; try assumption.
  intros env' Hfresh. apply GetKey_hit; assumption.
Qed.

(** X21: a successful refresh replaces the cache: on a miss (identifier
    absent, or cache stale), when the fetched set has no accepted entry for
    the identifier, [GetKey] returns a key-not-found error, the cache is
    exactly the conversion of the fetched set (a key cached before under
    that identifier is gone) and the cache is stamped anew. *)
Theorem refresh_drops_rotated_keys env kid f jwks :
  cache f !! kid = None \/ ~ fresh env f ->
  fetch env = Response 200 (inr jwks) ->
  noneAccepted DecodeString kid (JWKS.Keys jwks) ->
  exists f',
    GetKey DecodeString env kid f
    = (inl (NewValidationError ErrKeyNotFound (RKeyIDNotFound kid)), f',
       [EvNewRequest (url f); EvDo (url f)]) /\
    cache f' = convertKeys DecodeString (JWKS.Keys jwks) ∅ /\
    cache f' !! kid = None /\
    cachedAt f' = refreshNow env.
Proof.
  intros Hmiss Hfetch Hnone.
  rewrite (GetKey_miss DecodeString env kid f Hmiss).
  unfold refresh. rewrite Hfetch. simpl.
  rewrite (convertKeys_none _ _ Hnone).
  eexists. split; [reflexivity|]. simpl.
  split; [reflexivity|]. split; [apply convertKeys_none; exact Hnone|reflexivity].
Qed.

(** X22: [GetKey] fails only on a miss and after exactly one refresh:
    with a fetch error, the fetch having failed and the fetcher unchanged,
    or with a key-not-found error, the fetch having succeeded with a set
    that has no accepted entry for the identifier, which is now the
    cache. *)
Theorem GetKey_errors env kid f e f' log :
  GetKey DecodeString env kid f = (inl e, f', log) ->
  (cache f !! kid = None \/ ~ fresh env f) /\
  refreshCount log = 1%nat /\
  ((errors_Is e ErrJWKSFetch /\ fetchFails (fetch env) = true /\ f' = f) \/
   (errors_Is e ErrKeyNotFound /\
    exists jwks,
      fetch env = Response 200 (inr jwks) /\
      noneAccepted DecodeString kid (JWKS.Keys jwks) /\
      cache f' = convertKeys DecodeString (JWKS.Keys jwks) ∅ /\
      cachedAt f' = refreshNow env)).
Proof.
  intros Hget.
  assert (Hmiss : cache f !! kid = None \/ ~ fresh env f).
  { destruct (cache f !! kid) as [k|] eqn:Hk; [|left; reflexivity].
    right. intros Hfresh.
    rewrite (GetKey_hit DecodeString env kid f k Hk Hfresh) in Hget. discriminate. }
  split; [exact Hmiss|].
  rewrite (GetKey_miss DecodeString env kid f Hmiss) in Hget.
  pose proof (refresh_log DecodeString env f) as [Hcount _].
  destruct (refresh DecodeString env f) as [[err f1] log1] eqn:Hr.
  simpl in Hcount.
  apply refresh_cases in Hr as [(e1 & -> & He1 & Hfail & ->)|(jwks & -> & Hf & -> & ->)].
  - injection Hget as <- <- <-. split; [exact Hcount|]. left. auto.
  - simpl in Hget.
    destruct (convertKeys DecodeString (JWKS.Keys jwks) ∅ !! kid) as [k|] eqn:Hk;
      [discriminate|].
    injection Hget as <- <- <-. split; [reflexivity|]. right.
    split; [reflexivity|]. exists jwks. split; [exact Hf|].
    split; [exact (convertKeys_none_inv _ _ _ Hk)|]. split; reflexivity.
Qed.

(** An error of [GetKey] is a fetch error or a key-not-found error. *)
Lemma GetKey_error_category env kid f e f' log :
  GetKey DecodeString env kid f = (inl e, f', log) ->
  errors_Is e ErrJWKSFetch \/ errors_Is e ErrKeyNotFound.
Proof.
  unfold GetKey.
  destruct (match cache f !! kid with
            | Some key =>
                if time_Since (sinceNow env) (cachedAt f) <? cacheDuration f
                then Some key else None
            | None => None
            end) as [k|]; [discriminate|].
  destruct (refresh DecodeString env f) as [[err f1] log1] eqn:Hr.
  apply refresh_cases in Hr as [(e1 & -> & He1 & _)|(jwks & -> & _)].
  - intros H. injection H as <- _ _. left. exact He1.
  - destruct (cache f1 !! kid); [discriminate|].
    intros H. injection H as <- _ _. right. reflexivity.
Qed.

(** X23: an error of the key function is of the invalid-signature
    category iff the signing method is not RSA; of the invalid-token
    category iff the method is RSA and the header has no string "kid"; of
    the fetch or key-not-found category iff the method is RSA and "kid" is
    a string.  The two header errors come with no network event and the
    fetcher unchanged. *)
Theorem Keyfunc_error_categories env f token e f' log :
  Keyfunc DecodeString env f token = (inl e, f', log) ->
  (errors_Is e ErrInvalidSignature <->
   isSigningMethodRSA (Token.Method token) = false) /\
  (errors_Is e ErrInvalidToken <->
   isSigningMethodRSA (Token.Method token) = true /\
   forall kid, Token.Header token !! "kid" <> Some (HString kid)) /\
  (errors_Is e ErrJWKSFetch \/ errors_Is e ErrKeyNotFound <->
   isSigningMethodRSA (Token.Method token) = true /\
   exists kid, Token.Header token !! "kid" = Some (HString kid)) /\
  (errors_Is e ErrInvalidSignature \/ errors_Is e ErrInvalidToken ->
   log = [] /\ f' = f).
Proof.
  unfold Keyfunc.
  destruct (isSigningMethodRSA (Token.Method token)); simpl.
  - destruct (Token.Header token !! "kid") as [[kid|other]|] eqn:Hkid.
    + intros Hget.
      pose proof (GetKey_error_category _ _ _ _ _ _ Hget) as Hcat.
      unfold errors_Is in *.
      split; [split; [intros He; destruct Hcat; congruence|discriminate]|].
      split; [split; [intros He; destruct Hcat; congruence|]|].
      { intros [_ Hno]. exfalso. exact (Hno kid eq_refl). }
      split; [split; [intros _; split; [reflexivity|exists kid; reflexivity]
                     |intros _; exact Hcat]|].
      intros [He|He]; destruct Hcat; congruence.
    + intros H. injection H as <- <- <-. unfold errors_Is. simpl.
      split; [split; discriminate|].
      split; [split; [intros _; split; [reflexivity|discriminate]|reflexivity]|].
      split; [split; [intros [He|He]; discriminate
                     |intros [_ (kid & Hk)]; discriminate]|].
      intros _. split; reflexivity.
    + intros H. injection H as <- <- <-. unfold errors_Is. simpl.
      split; [split; discriminate|].
      split; [split; [intros _; split; [reflexivity|discriminate]|reflexivity]|].
      split; [split; [intros [He|He]; discriminate
                     |intros [_ (kid & Hk)]; discriminate]|].
      intros _. split; reflexivity.
  - intros H. injection H as <- <- <-. unfold errors_Is. simpl.
    split; [split; reflexivity|].
    split; [split; [discriminate|intros [Hm _]; discriminate]|].
    split; [split; [intros [He|He]; discriminate|intros [Hm _]; discriminate]|].
    intros _. split; reflexivity.
Qed.

Lemma time_Since_nonneg now t : t <= now -> 0 <= time_Since now t.
Proof.
  intros H. unfold time_Since, Time_Sub, maxDuration, minDuration. cbv zeta.
  destruct (Z.ltb_spec (2 ^ 63 - 1) (now - t)); [lia|].
  destruct (Z.ltb_spec (now - t) (- 2 ^ 63)); lia.
Qed.

(** X24: a fetcher made by [NewJWKSFetcher] never has a zero cache
    duration: zero gives the default, any other value (a negative one too)
    is kept.  A fetcher whose duration is not positive never serves from
    the cache: every [GetKey] call, made at or after the time of the last
    fetch, refreshes. *)
Theorem cache_duration_edges :
  (forall u d,
      cacheDuration (NewJWKSFetcher u d) <> 0 /\
      (d <> 0 -> cacheDuration (NewJWKSFetcher u d) = d) /\
      (d = 0 -> cacheDuration (NewJWKSFetcher u d) = DefaultCacheDuration)) /\
  (forall env kid f,
      cacheDuration f <= 0 -> cachedAt f <= sinceNow env ->
      refreshCount (GetKey DecodeString env kid f).2 = 1%nat).
Proof.
  split.
  - intros u d. unfold NewJWKSFetcher. cbv zeta. cbn [cacheDuration].
    destruct (Z.eqb_spec d 0) as [->|Hd].
    + split; [unfold DefaultCacheDuration, Hour; lia|].
      split; [intros H; contradiction|intros _; reflexivity].
    + split; [exact Hd|]. split; [reflexivity|intros H; contradiction].
  - intros env kid f Hd Ht.
    rewrite (GetKey_miss DecodeString env kid f).
    + pose proof (refresh_log DecodeString env f) as [Hcount _].
      destruct (refresh DecodeString env f) as [[err f1] log1]. simpl in Hcount.
      destruct err; [exact Hcount|].
      destruct (cache f1 !! kid); exact Hcount.
    + right. unfold fresh. pose proof (time_Since_nonneg _ _ Ht). lia.
Qed.

Lemma bigEndian_bounds buf : 0 <= bigEndian buf < 256 ^ Z.of_nat (length buf).
Proof.
  induction buf as [|b buf IH]; cbn [bigEndian length]; [simpl; lia|].
  rewrite Nat2Z.inj_succ, Z.pow_succ_r by lia.
  assert (Hb : 0 <= Z.of_N (N_of_ascii b) < 256).
  { pose proof (N_ascii_bounded b). lia. }
  nia.
Qed.

Lemma Int64_range x : - 2 ^ 63 <= Int64 x < 2 ^ 63.
Proof.
  unfold Int64. cbv zeta.
  pose proof (Z.mod_pos_bound x (2 ^ 64) ltac:(lia)).
  destruct (Z.ltb_spec (x mod 2 ^ 64) (2 ^ 63)); lia.
Qed.

Lemma Int64_small x : 0 <= x < 2 ^ 63 -> Int64 x = x.
Proof.
  intros H. unfold Int64. cbv zeta. rewrite Z.mod_small by lia.
  destruct (Z.ltb_spec x (2 ^ 63)); lia.
Qed.

Lemma Int64_congruent x : (Int64 x - x) mod 2 ^ 64 = 0.
Proof.
  unfold Int64. cbv zeta.
  destruct (Z.ltb_spec (x mod 2 ^ 64) (2 ^ 63)).
  - rewrite Zminus_mod, Z.mod_mod, Z.sub_diag by lia. reflexivity.
  - replace (x mod 2 ^ 64 - 2 ^ 64 - x) with (x mod 2 ^ 64 - x + (-1) * 2 ^ 64) by lia.
    rewrite Z.mod_add by lia.
    rewrite Zminus_mod, Z.mod_mod, Z.sub_diag by lia. reflexivity.
Qed.

(** X25: when both [n] and [e] decode, [jwkToPublicKey] returns a key,
    whatever the other fields of the entry: the modulus is the big-endian
    integer of the [n] bytes, non-negative and below 256 to the number of
    bytes; the exponent is within the 64-bit signed range, congruent to the
    big-endian integer of the [e] bytes modulo 2^64, and equal to it when
    there are at most seven bytes. *)
Theorem jwkToPublicKey_numbers jwk nBytes eBytes :
  DecodeString (JWK.N jwk) = Some nBytes ->
  DecodeString (JWK.E jwk) = Some eBytes ->
  exists pk,
    jwkToPublicKey DecodeString jwk = inr pk /\
    PublicKey.N pk = bigEndian nBytes /\
    0 <= PublicKey.N pk < 256 ^ Z.of_nat (length nBytes) /\
    - 2 ^ 63 <= PublicKey.E pk < 2 ^ 63 /\
    (PublicKey.E pk - bigEndian eBytes) mod 2 ^ 64 = 0 /\
    ((length eBytes <= 7)%nat -> PublicKey.E pk = bigEndian eBytes).
Proof.
  intros Hn He. unfold jwkToPublicKey. rewrite Hn, He. cbv zeta.
  rewrite !SetBytes_bigEndian. eexists. split; [reflexivity|]. simpl.
  split; [reflexivity|]. split; [apply bigEndian_bounds|].
  split; [apply Int64_range|]. split; [apply Int64_congruent|].
  intros Hlen. apply Int64_small.
  pose proof (bigEndian_bounds eBytes) as [H0 H1]. split; [exact H0|].
  eapply Z.lt_le_trans; [exact H1|].
  transitivity (256 ^ 7); [apply Z.pow_le_mono_r; lia|]. vm_compute. discriminate.
Qed.

End KeyCacheSequences.

(** *** The key cache at work *)

(** A refresh two hours after the cache was filled, then a call a
    nanosecond after that refresh, the endpoint being down. *)
Lemma GetKey_then_hit_witness :
  exists f',
    (GetKey RawURLEncoding_DecodeString
       (laterEnv (Response 200 (inr (JWKS.mk [testJWK "k1"])))) "k1" cachedFetcher).1.2
    = f' /\
    GetKey RawURLEncoding_DecodeString
      {| sinceNow := 2 * Hour + 2; fetch := TransportError "connection refused";
         refreshNow := 2 * Hour + 3 |} "k1" f'
    = (inr testKey, f', []).
Proof.
  destruct (GetKey RawURLEncoding_DecodeString
              (laterEnv (Response 200 (inr (JWKS.mk [testJWK "k1"])))) "k1" cachedFetcher)
    as [[res f'] log] eqn:Hget.
  pose proof Hget as Hc. vm_compute in Hc. injection Hc as <- <- <-.
  eexists. split; [reflexivity|].
  apply (GetKey_then_hit _ _ _ _ _ _ _ Hget).
  unfold fresh. vm_compute. reflexivity.
Defined.

(** The key set no longer lists "k1". *)
Lemma refresh_drops_rotated_keys_witness :
  exists f',
    GetKey RawURLEncoding_DecodeString
      (laterEnv (Response 200 (inr (JWKS.mk [testJWK "k2"])))) "k1" cachedFetcher
    = (inl (NewValidationError ErrKeyNotFound (RKeyIDNotFound "k1")), f',
       [EvNewRequest DefaultJWKSURL; EvDo DefaultJWKSURL]) /\
    JWKSFetcher.cache f'
    = convertKeys RawURLEncoding_DecodeString [testJWK "k2"] ∅ /\
    JWKSFetcher.cache f' !! "k1" = None /\
    JWKSFetcher.cachedAt f' = 2 * Hour + 1.
Proof.
  apply (refresh_drops_rotated_keys RawURLEncoding_DecodeString
           (laterEnv (Response 200 (inr (JWKS.mk [testJWK "k2"])))) "k1"
           cachedFetcher (JWKS.mk [testJWK "k2"])).
  - right. unfold fresh. vm_compute. discriminate.
  - reflexivity.
  - intros later [<-|[]] Hkid. discriminate Hkid.
Defined.

(** A stale cache and a 503 from the endpoint. *)
Lemma GetKey_errors_witness :
  JWKSFetcher.cache cachedFetcher !! "k1" = None \/
  ~ fresh (laterEnv (Response 503 (inl ""))) cachedFetcher.
Proof.
  exact (proj1 (GetKey_errors RawURLEncoding_DecodeString
                  (laterEnv (Response 503 (inl ""))) "k1" cachedFetcher
                  (NewValidationError ErrJWKSFetch (RHTTPStatus 503)) cachedFetcher
                  [EvNewRequest DefaultJWKSURL; EvDo DefaultJWKSURL]
                  ltac:(vm_compute; reflexivity))).
Defined.

(** An RS256 token whose header has no "kid". *)
Lemma Keyfunc_error_categories_witness :
  errors_Is (NewValidationError ErrInvalidToken (RText "missing kid in token header"))
    ErrInvalidSignature <->
  isSigningMethodRSA (SigningMethodRSA "RS256") = false.
Proof.
  exact (proj1 (Keyfunc_error_categories RawURLEncoding_DecodeString
                  (soonEnv (TransportError "connection refused")) cachedFetcher
                  (Token.mk (SigningMethodRSA "RS256") (<["alg" := HString "RS256"]> ∅))
                  _ cachedFetcher [] eq_refl)).
Defined.

(** The entry of the tests: "AQAB" is 65537. *)
Lemma jwkToPublicKey_numbers_witness :
  exists pk,
    jwkToPublicKey RawURLEncoding_DecodeString (testJWK "k1") = inr pk /\
    PublicKey.N pk = 65537 /\ PublicKey.E pk = 65537.
Proof.
  destruct (jwkToPublicKey_numbers RawURLEncoding_DecodeString (testJWK "k1")
              (list_ascii_of_string (String "001" (String "000" (String "001" EmptyString))))
              (list_ascii_of_string (String "001" (String "000" (String "001" EmptyString))))
              ltac:(vm_compute; reflexivity) ltac:(vm_compute; reflexivity))
    as (pk & Hpk & Hn & _ & _ & _ & He).
  exists pk. split; [exact Hpk|]. split; [exact Hn|].
  rewrite He; [reflexivity|simpl; lia].
Defined.
